(** * A command-line 2048 game ([lab_1/part1.py]): the board engine

    The Python module keeps one global [board], a list of rows, each row a
    list of cells; a cell is the empty marker [""] or an [int].  Every
    function of the engine is embedded below under its own name:

    - [slideLeftAndMergeRow] only computes and is a Rocq function;
    - [transposeBoard] works on its argument and can raise: it returns a
      [result];
    - the functions that read or assign the global [board] ([init],
      [addANewTwoToBoard], [isFull], [getCurrentScore],
      [updateTheBoardBasedOnTheUserMove]) are computations of the monad
      [M]: they take the board and return an outcome together with the
      board they leave behind, also when they raise;
    - the random module is an argument: the pair drawn by [random.sample],
      the number behind [random.choice].

    Rows are modelled as values.  In the program every row of [board] is a
    list object of its own ([init] appends a fresh [rowList] per row,
    [slideLeftAndMergeRow] and [transposeBoard] build fresh lists), so the
    in-place [reverse()] and the cell assignment reach one row only.
    [displayGame] returns the text it prints; the other [print] calls,
    among them the [print("test")] of the A branch, are not modelled.  The
    console is modelled last: [str] raises [ValueError] on a number of
    more than 4300 digits, [promptGamerForTheNextMove] reads from the list
    of the lines still to come, [input] raises [EOFError] when none is
    left, and the super-loop of the program is [main]. *)

From Stdlib Require Import Ascii String.
From Stdlib Require Import List ZArith Lia Bool Arith PeanoNat.
From Stdlib Require Import DecimalString.
Import ListNotations.
Local Open Scope Z_scope.
Local Open Scope nat_scope.

Set Implicit Arguments.

(** ** Cells, rows and grids *)

(** A cell of the board: [""] or an [int]. *)
Inductive cell : Type :=
| Empty
| Num (value : Z).

Abbreviation row := (list cell).
Abbreviation grid := (list (list cell)).

(** [c == ""] *)
Definition is_empty (c : cell) : bool :=
  match c with
  | Empty => true
  | Num _ => false
  end.

(** [c != ""] *)
Definition is_occupied (c : cell) : bool := negb (is_empty c).

(** [a == b] on cells: an [int] never equals [""]. *)
Definition cell_eqb (a b : cell) : bool :=
  match a, b with
  | Empty, Empty => true
  | Num x, Num y => Z.eqb x y
  | _, _ => false
  end.

(** [c * 2]; in Python ["" * 2] is [""] again. *)
Definition cell_double (c : cell) : cell :=
  match c with
  | Empty => Empty
  | Num x => Num (x * 2)
  end.

(** What a cell adds to the score. *)
Definition cell_value (c : cell) : Z :=
  match c with
  | Empty => 0%Z
  | Num x => x
  end.

(** ** [slideLeftAndMergeRow] *)

Module Slide.

(** The loop state: the flag [is_merged] and the list [final_cell]. *)
Definition loop_state : Type := (bool * list cell)%type.

(** One turn of [for index in range(non_empty_array_length)]. *)
Definition merge_step (non_empty_cells : list cell) (st : loop_state)
    (index : nat) : loop_state :=
  let (is_merged, final_cell) := st in
  if is_merged then (false, final_cell)
  else
    let current := nth index non_empty_cells Empty in
    if (index + 1 <? length non_empty_cells)
       && cell_eqb current (nth (index + 1) non_empty_cells Empty)
    then (true, final_cell ++ [cell_double current])
    else (false, final_cell ++ [current]).

(** [while len(final_cell) < len(row_array): final_cell.append("")];
    [fuel] bounds the number of turns. *)
Fixpoint fill_loop (fuel : nat) (final_cell : list cell) (width : nat)
    : list cell :=
  match fuel with
  | O => final_cell
  | S fuel' =>
      if length final_cell <? width
      then fill_loop fuel' (final_cell ++ [Empty]) width
      else final_cell
  end.

End Slide.

Definition slideLeftAndMergeRow (row_array : row) : row :=
  let non_empty_cells := filter is_occupied row_array in
  let non_empty_array_length := length non_empty_cells in
  let final_cell :=
    snd (fold_left (Slide.merge_step non_empty_cells)
                   (seq 0 non_empty_array_length) (false, [])) in
  Slide.fill_loop (length row_array) final_cell (length row_array).

(** ** Exceptions and the global [board] *)

Inductive exn : Type :=
| IndexError
| RuntimeError (msg : string)
| ValueError
| EOFError.

Inductive result (A : Type) : Type :=
| Ok (a : A)
| Raise (e : exn).

Arguments Ok {A} a.
Arguments Raise {A} e.

(** A computation over the global [board]: its outcome and the board it
    leaves, which is kept when the outcome is an exception. *)
Definition M (A : Type) : Type := grid -> result A * grid.

Definition ret {A : Type} (a : A) : M A := fun board => (Ok a, board).

Definition raise {A : Type} (e : exn) : M A := fun board => (Raise e, board).

Definition bind {A B : Type} (m : M A) (k : A -> M B) : M B :=
  fun board =>
    match m board with
    | (Ok a, board') => k a board'
    | (Raise e, board') => (Raise e, board')
    end.

Declare Scope board_scope.
Delimit Scope board_scope with board.
Notation "x <- m ;; k" := (bind m (fun x => k))
  (at level 100, m at next level, right associativity) : board_scope.
Notation "m ;; k" := (bind m (fun _ => k))
  (at level 100, right associativity) : board_scope.
Local Open Scope board_scope.

(** [l[i]] for [i >= 0]. *)
Definition index {A : Type} (l : list A) (i : nat) : result A :=
  match nth_error l i with
  | Some x => Ok x
  | None => Raise IndexError
  end.

(** [l[i] = x] on the list value: the list with position [i] replaced. *)
Fixpoint replace_nth {A : Type} (l : list A) (i : nat) (x : A) : list A :=
  match l, i with
  | [], _ => []
  | _ :: rest, O => x :: rest
  | y :: rest, S i' => y :: replace_nth rest i' x
  end.

(** the value of [board] *)
Definition get_board : M grid := fun board => (Ok board, board).

(** [board = new_board] *)
Definition put_board (new_board : grid) : M unit := fun _ => (Ok tt, new_board).

(** [board[row]] *)
Definition get_row (row_index : nat) : M row :=
  fun board => (index board row_index, board).

(** [board[row][col]] *)
Definition get_cell (row_index col_index : nat) : M cell :=
  r <- get_row row_index ;;
  fun board => (index r col_index, board).

(** [board[row] = new_row] *)
Definition set_row (row_index : nat) (new_row : row) : M unit :=
  fun board =>
    if row_index <? length board
    then (Ok tt, replace_nth board row_index new_row)
    else (Raise IndexError, board).

(** [board[row][col] = c] *)
Definition set_cell (row_index col_index : nat) (c : cell) : M unit :=
  r <- get_row row_index ;;
  if col_index <? length r
  then set_row row_index (replace_nth r col_index c)
  else raise IndexError.

(** [board[row].reverse()] *)
Definition reverse_row (row_index : nat) : M unit :=
  r <- get_row row_index ;;
  set_row row_index (rev r).

(** [board.append(new_row)] *)
Definition append_row (new_row : row) : M unit :=
  fun board => (Ok tt, board ++ [new_row]).

(** [for i in indices: s = body(i, s)], where [s] stands for the local
    variables the loop body assigns. *)
Fixpoint fold_in {I S : Type} (indices : list I) (body : I -> S -> M S) (s : S)
    : M S :=
  match indices with
  | [] => ret s
  | i :: rest => s' <- body i s ;; fold_in rest body s'
  end.

(** [for i in indices: body(i)] *)
Definition for_in {I : Type} (indices : list I) (body : I -> M unit) : M unit :=
  fold_in indices (fun i _ => body i) tt.

(** A loop whose body may [return v]: [Some v] leaves the loop. *)
Fixpoint for_in_return {I R : Type} (indices : list I)
    (body : I -> M (option R)) : M (option R) :=
  match indices with
  | [] => ret None
  | i :: rest =>
      r <- body i ;;
      match r with
      | Some v => ret (Some v)
      | None => for_in_return rest body
      end
  end.

(** [range(n)] *)
Definition range (n : nat) : list nat := seq 0 n.

(** ** [transposeBoard] *)

(** [for i in indices: acc.append(f(i))] *)
Fixpoint append_each {A : Type} (f : nat -> result A) (indices : list nat)
    (acc : list A) : result (list A) :=
  match indices with
  | [] => Ok acc
  | i :: rest =>
      match f i with
      | Ok x => append_each f rest (acc ++ [x])
      | Raise e => Raise e
      end
  end.

Definition transposeBoard (current_board : grid) : result grid :=
  let row_size := length current_board in
  match index current_board 0 with
  | Raise e => Raise e
  | Ok first_row =>
      let col_size := length first_row in
      append_each
        (fun col =>
           append_each
             (fun row =>
                match index current_board row with
                | Raise e => Raise e
                | Ok r => index r col
                end)
             (range row_size) [])
        (range col_size) []
  end.

(** ** [isFull], [getCurrentScore] *)

Definition isFull : M bool :=
  board <- get_board ;;
  let row_size := length board in
  first_row <- get_row 0 ;;
  let col_size := length first_row in
  found <- for_in_return (range row_size) (fun row =>
             for_in_return (range col_size) (fun col =>
               c <- get_cell row col ;;
               if is_empty c then ret (Some false) else ret None)) ;;
  match found with
  | Some v => ret v
  | None => ret true
  end.

Definition getCurrentScore : M Z :=
  board <- get_board ;;
  let row_size := length board in
  first_row <- get_row 0 ;;
  let col_size := length first_row in
  fold_in (range row_size) (fun row current_score =>
    fold_in (range col_size) (fun col current_score =>
      c <- get_cell row col ;;
      if is_occupied c
      then ret (current_score + cell_value c)%Z
      else ret current_score) current_score) 0%Z.

(** ** [addANewTwoToBoard] *)

(** [random.choice(items)] for a non-empty list: the element at an index
    below its length; [rnd] ranges over all naturals, so every element can
    be chosen. *)
Definition random_choice {A : Type} (rnd : nat) (items : list A) (default : A) : A :=
  nth (rnd mod length items) items default.

Definition addANewTwoToBoard (rnd : nat) : M unit :=
  board <- get_board ;;
  let row_size := length board in
  first_row <- get_row 0 ;;
  let col_size := length first_row in
  empty_cells <-
    fold_in (range row_size) (fun row empty_cells =>
      fold_in (range col_size) (fun col empty_cells =>
        c <- get_cell row col ;;
        if is_empty c
        then ret (empty_cells ++ [(row, col)])
        else ret empty_cells) empty_cells) [] ;;
  match empty_cells with
  | [] => ret tt
  | _ :: _ =>
      let (row_chosen, col_chosen) := random_choice rnd empty_cells (0, 0) in
      set_cell row_chosen col_chosen (Num 2)
  end.

(** ** [updateTheBoardBasedOnTheUserMove] *)

(** [board = transposeBoard(board)] *)
Definition transpose_in_place : M unit :=
  board <- get_board ;;
  match transposeBoard board with
  | Ok new_board => put_board new_board
  | Raise e => raise e
  end.

(** [board[row_index] = slideLeftAndMergeRow(board[row_index])] *)
Definition slide_row (row_index : nat) : M unit :=
  r <- get_row row_index ;;
  set_row row_index (slideLeftAndMergeRow r).

Definition updateTheBoardBasedOnTheUserMove (move : string) : M unit :=
  board <- get_board ;;
  let row_size := length board in
  first_row <- get_row 0 ;;
  let col_size := length first_row in
  if String.eqb move "A" then
    for_in (range row_size) (fun row_index =>
      slide_row row_index)
  else if String.eqb move "D" then
    for_in (range row_size) (fun row_index =>
      reverse_row row_index ;;
      slide_row row_index ;;
      reverse_row row_index)
  else if String.eqb move "W" then
    transpose_in_place ;;
    for_in (range row_size) (fun row_index =>
      slide_row row_index) ;;
    transpose_in_place
  else if String.eqb move "S" then
    transpose_in_place ;;
    for_in (range row_size) (fun row_index =>
      reverse_row row_index ;;
      slide_row row_index ;;
      reverse_row row_index) ;;
    transpose_in_place
  else
    raise (RuntimeError "Unexpected logic path").

(** ** [init] *)

(** [init], with [twoRandomNumbers] the list drawn by
    [random.sample(range(16), 2)]. *)
Definition init (twoRandomNumbers : nat * nat) : M unit :=
  for_in (range 4) (fun _ =>
    let rowList := fold_left (fun rowList _ => rowList ++ [Empty]) (range 4) [] in
    append_row rowList) ;;
  let twoRandomCells :=
    [ (fst twoRandomNumbers / 4, fst twoRandomNumbers mod 4);
      (snd twoRandomNumbers / 4, snd twoRandomNumbers mod 4) ] in
  for_in twoRandomCells (fun cell =>
    set_cell (fst cell) (snd cell) (Num 2)).

(** The value of the module variable [board] when the module is loaded. *)
Definition initial_board : grid := [].

(** ** Notions of the specification *)

(** The sum of [weight] over the cells of a row and of a grid. *)
Definition row_sum (weight : cell -> Z) (r : row) : Z :=
  fold_right (fun c acc => (weight c + acc)%Z) 0%Z r.

Definition grid_sum (weight : cell -> Z) (g : grid) : Z :=
  fold_right (fun r acc => (row_sum weight r + acc)%Z) 0%Z g.

(** Score of a grid: the sum of the numbers on it. *)
Definition grid_score (g : grid) : Z := grid_sum cell_value g.

(** An Occupied cell counts for one. *)
Definition occupied_weight (c : cell) : Z :=
  if is_occupied c then 1%Z else 0%Z.

(** Number of Occupied cells. *)
Definition row_occupied (r : row) : nat := length (filter is_occupied r).

Definition occupied_count (g : grid) : nat :=
  fold_right (fun r acc => row_occupied r + acc) 0 g.

(** [g] has [R] rows of [C] cells each. *)
Definition is_grid (R C : nat) (g : grid) : Prop :=
  length g = R /\ Forall (fun r => length r = C) g.

(** The cell at a position, [None] outside the grid. *)
Definition cell_at (g : grid) (pos : nat * nat) : option cell :=
  match nth_error g (fst pos) with
  | Some r => nth_error r (snd pos)
  | None => None
  end.

(** The same scan written by recursion on the cells still to visit. *)
Fixpoint merge_pairs (cells : list cell) : list cell :=
  match cells with
  | [] => []
  | x :: rest =>
      match rest with
      | [] => [x]
      | y :: rest' =>
          if cell_eqb x y
          then cell_double x :: merge_pairs rest'
          else x :: merge_pairs rest
      end
  end.


(** Two neighbouring cells of the list are equal. *)
Fixpoint has_equal_neighbours (cells : list cell) : bool :=
  match cells with
  | [] => false
  | x :: rest =>
      match rest with
      | [] => false
      | y :: _ => cell_eqb x y || has_equal_neighbours rest
      end
  end.

(** A line on which a slide would still merge: two equal Occupied cells
    with nothing but Empty cells between them. *)
Definition mergeable_line (r : row) : bool :=
  has_equal_neighbours (filter is_occupied r).

(** The grid read column by column, for a grid of [col_size] columns. *)
Definition transpose (col_size : nat) (g : grid) : grid :=
  map (fun col => map (fun r => nth col r Empty) g) (seq 0 col_size).

(** The four moves the engine accepts. *)
Definition is_direction (move : string) : Prop :=
  move = "A"%string \/ move = "D"%string \/ move = "W"%string \/ move = "S"%string.

(** The lines along which [move] slides: the rows for A and D, the
    columns for W and S. *)
Definition lines (move : string) (g : grid) : list row :=
  if (String.eqb move "A" || String.eqb move "D")%bool
  then g
  else transpose (length (nth 0 g [])) g.

Definition can_merge (move : string) (g : grid) : bool :=
  existsb mergeable_line (lines move g).

(** What the D branch does to one row: reverse, slide left, reverse. *)
Definition slide_right (r : row) : row :=
  rev (slideLeftAndMergeRow (rev r)).

(** The board a move leaves on a square grid, as a function of the grid. *)
Definition moved (move : string) (g : grid) : grid :=
  let n := length g in
  if String.eqb move "A" then map slideLeftAndMergeRow g
  else if String.eqb move "D" then map slide_right g
  else if String.eqb move "W"
       then transpose n (map slideLeftAndMergeRow (transpose n g))
       else transpose n (map slide_right (transpose n g)).

(** The first [Some] among [v i], for [i] along [indices]. *)
Fixpoint first_some {I R : Type} (v : I -> option R) (indices : list I)
    : option R :=
  match indices with
  | [] => None
  | i :: rest =>
      match v i with
      | Some x => Some x
      | None => first_some v rest
      end
  end.

(** A board of a game in progress, used to instantiate the theorems. *)
Definition sample_board : grid :=
  [ [Num 2; Num 2; Num 4; Empty];
    [Empty; Empty; Empty; Empty];
    [Empty; Num 2; Empty; Num 2];
    [Num 8; Empty; Empty; Num 8] ].

(** The board of the specification's example: row 0 is [[2,2,4,'']], the
    other rows are empty. *)
Definition example_board : grid :=
  [ [Num 2; Num 2; Num 4; Empty];
    [Empty; Empty; Empty; Empty];
    [Empty; Empty; Empty; Empty];
    [Empty; Empty; Empty; Empty] ].

(** [transposeBoard(transposeBoard(g))] *)
Definition transpose_twice (g : grid) : result grid :=
  match transposeBoard g with
  | Ok t => transposeBoard t
  | Raise e => Raise e
  end.

(** The positions of the Empty cells of an [R] x [C] grid, row by row:
    the list [empty_cells] that [addANewTwoToBoard] builds. *)
Definition empty_positions (R C : nat) (g : grid) : list (nat * nat) :=
  flat_map (fun row =>
    flat_map (fun col =>
      if is_empty (nth col (nth row g []) Empty) then [(row, col)] else [])
      (seq 0 C))
    (seq 0 R).

(** A 2 x 3 grid. *)
Definition small_board : grid :=
  [ [Num 2; Empty; Num 4];
    [Empty; Num 8; Num 2] ].

(** A grid without Empty cells. *)
Definition full_board : grid :=
  [ [Num 2; Num 4];
    [Num 8; Num 2] ].

(** ** Further notions: tiles, packed rows *)

(** A cell the game can produce: Empty or a power of two, 2 at least. *)
Definition is_tile (c : cell) : bool :=
  match c with
  | Empty => true
  | Num v => ((2 <=? v) && (v =? 2 ^ Z.log2 v))%Z
  end.

Definition all_tiles (g : grid) : bool := forallb (forallb is_tile) g.

(** A row whose Occupied cells all come before its Empty cells. *)
Fixpoint packed (r : row) : bool :=
  match r with
  | [] => true
  | Empty :: rest => forallb is_empty rest
  | Num _ :: rest => packed rest
  end.

(** A line as seen from the edge a move slides to: as it is for A and W,
    reversed for D and S. *)
Definition from_edge (move : string) (r : row) : row :=
  if (String.eqb move "A" || String.eqb move "W")%bool then r else rev r.

(** No slide of [move] would change the grid: every line along the move
    is packed against the edge and has nothing to merge. *)
Definition settled (move : string) (g : grid) : bool :=
  forallb (fun r => packed (from_edge move r) && negb (mergeable_line r))
          (lines move g).

(** A 3 x 2 grid, with more rows than columns. *)
Definition tall_board : grid :=
  [ [Num 2; Num 4];
    [Num 2; Empty];
    [Empty; Num 4] ].

(** A 2 x 3 grid whose third column could merge upwards. *)
Definition wide_board : grid :=
  [ [Num 2; Num 4; Num 8];
    [Num 2; Num 4; Num 8] ].

(** A computation that leaves [board] as it found it, whatever its
    outcome. *)
Definition read_only {A : Type} (m : M A) : Prop :=
  forall board, snd (m board) = board.

(** A board whose second row is shorter than the first. *)
Definition ragged_board : grid :=
  [ [Num 2; Num 4; Empty];
    [Num 8; Empty] ].

(** ** The console: [displayGame], [promptGamerForTheNextMove], the game

    The text written by [print] is a string that grows; what [input]
    reads is the list of the lines still to come. *)

Definition newline : string := String (Ascii.ascii_of_nat 10) EmptyString.

(** [print(text)] and [print(text, end="")] after [out] was printed. *)
Definition print (text : string) (out : string) : string :=
  (out ++ text ++ newline)%string.

Definition print_no_end (text : string) (out : string) : string :=
  (out ++ text)%string.

(** [n] spaces. *)
Fixpoint spaces (n : nat) : string :=
  match n with
  | O => EmptyString
  | S n' => String " "%char (spaces n')
  end.

(** [s.center(width)]: the text with [width - len(s)] spaces around it;
    when they cannot be shared evenly the extra space goes to the left
    if [width] is odd, to the right if it is even. *)
Definition center (s : string) (width : nat) : string :=
  let len := String.length s in
  if width <=? len then s
  else
    let marg := width - len in
    let left := marg / 2 + Nat.land (Nat.land marg width) 1 in
    (spaces left ++ s ++ spaces (marg - left))%string.

(** The decimal digits of a number. *)
Definition digits (v : Z) : string := NilZero.string_of_int (Z.to_int v).

(** The least number [str] refuses: the interpreter converts an [int] of
    at most 4300 digits (the default of [sys.get_int_max_str_digits()]);
    a longer one raises [ValueError]. *)
Definition str_limit : Z := (10 ^ 4300)%Z.

Definition printable_int (v : Z) : bool := (Z.abs v <? str_limit)%Z.

(** [str(v)] for an [int], also what an f-string does with it. *)
Definition str_int (v : Z) : result string :=
  if printable_int v then Ok (digits v) else Raise ValueError.

(** [str(cell)]: the decimal digits of a number, nothing for [""]. *)
Definition str (c : cell) : result string :=
  match c with
  | Empty => Ok EmptyString
  | Num v => str_int v
  end.

(** A cell that [str] converts, and the text it gives. *)
Definition printable (c : cell) : bool :=
  match c with
  | Empty => true
  | Num v => printable_int v
  end.

Definition all_printable (g : grid) : bool := forallb (forallb printable) g.

Definition cell_text (c : cell) : string :=
  match c with
  | Empty => EmptyString
  | Num v => digits v
  end.

(** The outcome of a call that does not touch [board]. *)
Definition lift {A : Type} (r : result A) : M A := fun board => (r, board).

Definition rule : string := "+-----+-----+-----+-----+"%string.

(** [displayGame], returning the text it prints. *)
Definition displayGame : M string :=
  let out := print rule EmptyString in
  fold_in (range 4) (fun row out =>
    out <- fold_in (range 4) (fun column out =>
             cell <- get_cell row column ;;
             text <- lift (str cell) ;;
             ret (print_no_end ("|" ++ center text 5)%string out)) out ;;
    let out := print "|"%string out in
    ret (print rule out)) out.

(** The lines [displayGame] prints for the top left 4 x 4 cells of [g]. *)
Definition display_row (r : row) : string :=
  (fold_left (fun out column =>
                print_no_end
                  ("|" ++ center (cell_text (nth column r Empty)) 5)%string out)
             (range 4) EmptyString ++ "|")%string.

Definition display_lines (g : grid) : list string :=
  rule :: flat_map (fun row => [display_row (nth row g []); rule]) (range 4).

Definition unlines (text_lines : list string) : string :=
  fold_left (fun out line => print line out) text_lines EmptyString.

(** [move in ("W", "A", "S", "D", "Q")] *)
Definition is_valid_input (move : string) : bool :=
  existsb (String.eqb move) ["W"; "A"; "S"; "D"; "Q"]%string.

(** The body of the super-loop once a move was read: the move, the new
    tile, the display, and the test that ends the game. *)
Definition game_turn (userInput : string) (rnd : nat) : M bool :=
  updateTheBoardBasedOnTheUserMove userInput ;;
  addANewTwoToBoard rnd ;;
  _ <- displayGame ;;
  isFull.

(** How the super-loop ends: by Q, by a full board; [StillRunning] is the
    answer of a run that was cut short. *)
Inductive game_end : Type :=
| Quit
| GameOver
| StillRunning.

Section Console.

(** [str.upper], for whatever the console delivers. *)
Variable upper : string -> string.

(** [promptGamerForTheNextMove]: the move it returns and the lines left,
    or [None] when [input] finds no line that is a valid entry. *)
Fixpoint promptGamerForTheNextMove (lines : list string)
    : option (string * list string) :=
  match lines with
  | [] => None
  | line :: rest =>
      let move := upper line in
      if is_valid_input move
      then Some (move, rest)
      else promptGamerForTheNextMove rest
  end.

(** The super-loop; [lines] is what the standard input holds, [rnd turn]
    the outcome of [random.choice] in turn number [turn], and [fuel]
    bounds the number of turns that are run.  The score is converted for
    [print(f"Score: ...")]; when the input ends before a valid entry,
    [input] raises [EOFError]. *)
Fixpoint super_loop (fuel : nat) (rnd : nat -> nat) (turn : nat)
    (lines : list string) : M game_end :=
  match fuel with
  | O => ret StillRunning
  | S fuel' =>
      score <- getCurrentScore ;;
      _ <- lift (str_int score) ;;
      match promptGamerForTheNextMove lines with
      | None => raise EOFError
      | Some (userInput, rest) =>
          if String.eqb userInput "Q" then ret Quit
          else
            full <- game_turn userInput (rnd turn) ;;
            if full then ret GameOver
            else super_loop fuel' rnd (S turn) rest
      end
  end.

(** The program: [init], [displayGame], the super-loop.  Every turn reads
    at least one line, so one unit of fuel more than there are lines is
    enough. *)
Definition main (twoRandomNumbers : nat * nat) (rnd : nat -> nat)
    (lines : list string) : M game_end :=
  init twoRandomNumbers ;;
  _ <- displayGame ;;
  super_loop (S (length lines)) rnd 0 lines.

End Console.

(** Every cell is Empty or a power of two between 2 and [bound]. *)
Definition tiles_up_to (bound : Z) (g : grid) : bool :=
  forallb (forallb (fun c => is_tile c && (cell_value c <=? bound)%Z)) g.

(** ** Properties of [slideLeftAndMergeRow] *)

Section SlideFacts.

Lemma merge_pairs_ind' (P : list cell -> Prop) :
  P [] ->
  (forall x, P [x]) ->
  (forall x y l, cell_eqb x y = true -> P l -> P (x :: y :: l)) ->
  (forall x y l, cell_eqb x y = false -> P (y :: l) -> P (x :: y :: l)) ->
  forall l, P l.
Proof.
  intros Hnil Hone Heq Hne l.
  assert (H : P l /\ forall x, P (x :: l)).
  { induction l as [|y l [IH1 IH2]].
    - split; [exact Hnil | exact Hone].
    - split; [apply IH2|].
      intros x. destruct (cell_eqb x y) eqn:E.
      + apply Heq; assumption.
      + apply Hne; [assumption | apply IH2]. }
  apply H.
Qed.

(** The indexed loop of the source computes [merge_pairs]. *)
Lemma merge_loop_suffix (suf pre : list cell) (is_merged : bool) (acc : list cell) :
  snd (fold_left (Slide.merge_step (pre ++ suf))
                 (seq (length pre) (length suf)) (is_merged, acc))
  = acc ++ (if is_merged then merge_pairs (tl suf) else merge_pairs suf).
Proof.
  revert pre is_merged acc.
  induction suf as [|x suf IH]; intros pre is_merged acc.
  - simpl. destruct is_merged; simpl; now rewrite app_nil_r.
  - cbn [length seq fold_left].
    assert (Hpre : pre ++ x :: suf = (pre ++ [x]) ++ suf)
      by now rewrite <- app_assoc.
    assert (Hlen : S (length pre) = length (pre ++ [x]))
      by (rewrite length_app; simpl; lia).
    assert (Hcur : nth (length pre) (pre ++ x :: suf) Empty = x)
      by (rewrite app_nth2 by lia; now rewrite Nat.sub_diag).
    unfold Slide.merge_step at 2.
    destruct is_merged.
    + rewrite Hpre, Hlen, IH. reflexivity.
    + rewrite Hcur. destruct suf as [|y suf'].
      * replace (length pre + 1 <? length (pre ++ [x])) with false
          by (symmetry; apply Nat.ltb_ge; rewrite length_app; simpl; lia).
        simpl. reflexivity.
      * replace (length pre + 1 <? length (pre ++ x :: y :: suf')) with true
          by (symmetry; apply Nat.ltb_lt; rewrite length_app; simpl; lia).
        assert (Hnext : nth (length pre + 1) (pre ++ x :: y :: suf') Empty = y).
        { rewrite app_nth2 by lia.
          replace (length pre + 1 - length pre) with 1 by lia. reflexivity. }
        rewrite Hnext. cbn [andb].
        destruct (cell_eqb x y) eqn:E.
        -- rewrite Hpre, Hlen, IH. cbn [tl merge_pairs]. rewrite E.
           now rewrite <- app_assoc.
        -- rewrite Hpre, Hlen, IH. cbn [merge_pairs]. rewrite E.
           now rewrite <- app_assoc.
Qed.

Lemma merge_loop_spec (cells : list cell) :
  snd (fold_left (Slide.merge_step cells) (seq 0 (length cells)) (false, []))
  = merge_pairs cells.
Proof. exact (merge_loop_suffix cells [] false []). Qed.

Lemma fill_loop_spec (fuel width : nat) (final_cell : list cell) :
  width - length final_cell <= fuel ->
  Slide.fill_loop fuel final_cell width
  = final_cell ++ repeat Empty (width - length final_cell).
Proof.
  revert final_cell.
  induction fuel as [|fuel IH]; intros final_cell Hfuel; simpl.
  - replace (width - length final_cell) with 0 by lia.
    simpl. now rewrite app_nil_r.
  - destruct (length final_cell <? width) eqn:E.
    + apply Nat.ltb_lt in E.
      rewrite IH by (rewrite length_app; simpl; lia).
      rewrite length_app. simpl.
      replace (width - length final_cell)
        with (S (width - (length final_cell + 1))) by lia.
      simpl. now rewrite <- app_assoc.
    + apply Nat.ltb_ge in E.
      replace (width - length final_cell) with 0 by lia.
      simpl. now rewrite app_nil_r.
Qed.

Lemma merge_pairs_length (l : list cell) : length (merge_pairs l) <= length l.
Proof.
  induction l using merge_pairs_ind'; cbn [merge_pairs]; try rewrite H;
    simpl in *; lia.
Qed.

Lemma filter_length_le (l : list cell) : length (filter is_occupied l) <= length l.
Proof. induction l as [|c l IH]; simpl; [lia|]. destruct (is_occupied c); simpl; lia. Qed.

(** [slideLeftAndMergeRow] in closed form: the merged Occupied cells
    followed by Empty cells up to the width of the row.  The fuel given to
    the [while] loop, the width of the row, is enough for it to stop on
    its own test. *)
Lemma slide_closed_form (r : row) :
  slideLeftAndMergeRow r
  = merge_pairs (filter is_occupied r)
    ++ repeat Empty (length r - length (merge_pairs (filter is_occupied r))).
Proof.
  unfold slideLeftAndMergeRow. rewrite merge_loop_spec.
  apply fill_loop_spec. lia.
Qed.

Lemma slide_length (r : row) : length (slideLeftAndMergeRow r) = length r.
Proof.
  rewrite slide_closed_form, length_app, repeat_length.
  pose proof (merge_pairs_length (filter is_occupied r)).
  pose proof (filter_length_le r). lia.
Qed.

End SlideFacts.

(** ** Sums over rows and grids *)

Section Sums.

Variable weight : cell -> Z.

Lemma row_sum_cons (c : cell) (r : row) :
  row_sum weight (c :: r) = (weight c + row_sum weight r)%Z.
Proof. reflexivity. Qed.

Lemma grid_sum_cons (r : row) (g : grid) :
  grid_sum weight (r :: g) = (row_sum weight r + grid_sum weight g)%Z.
Proof. reflexivity. Qed.

Lemma row_sum_app (r1 r2 : row) :
  row_sum weight (r1 ++ r2) = (row_sum weight r1 + row_sum weight r2)%Z.
Proof. induction r1 as [|c r1 IH]; simpl; [reflexivity | rewrite IH; lia]. Qed.

Lemma row_sum_rev (r : row) : row_sum weight (rev r) = row_sum weight r.
Proof.
  induction r as [|c r IH]; simpl; [reflexivity|].
  rewrite row_sum_app, IH. simpl. lia.
Qed.

Lemma row_sum_repeat_Empty (n : nat) :
  weight Empty = 0%Z -> row_sum weight (repeat Empty n) = 0%Z.
Proof. intros H0. induction n as [|n IH]; simpl; [reflexivity | lia]. Qed.

Lemma row_sum_filter_occupied (r : row) :
  weight Empty = 0%Z -> row_sum weight (filter is_occupied r) = row_sum weight r.
Proof.
  intros H0. induction r as [|c r IH]; simpl; [reflexivity|].
  destruct c; simpl; lia.
Qed.

Lemma row_sum_nth_seq (r : row) :
  fold_right (fun col acc => (weight (nth col r Empty) + acc)%Z) 0%Z
             (seq 0 (length r))
  = row_sum weight r.
Proof.
  induction r as [|c r IH]; simpl; [reflexivity|].
  rewrite <- IH, <- seq_shift. f_equal.
  generalize (seq 0 (length r)) as l.
  induction l as [|i l IHl]; simpl; [reflexivity | now rewrite IHl].
Qed.

Lemma grid_sum_map_cons {I : Type} (a : I -> cell) (b : I -> row) (l : list I) :
  grid_sum weight (map (fun i => a i :: b i) l)
  = (fold_right (fun i acc => (weight (a i) + acc)%Z) 0%Z l
     + grid_sum weight (map b l))%Z.
Proof. induction l as [|i l IH]; simpl; [reflexivity | rewrite IH; lia]. Qed.

Lemma grid_sum_map_nil {I : Type} (l : list I) :
  grid_sum weight (map (fun _ => []) l) = 0%Z.
Proof. induction l as [|i l IH]; simpl; [reflexivity | now rewrite IH]. Qed.

(** Reading a grid by columns visits the same cells. *)
Lemma grid_sum_transpose (C : nat) (g : grid) :
  Forall (fun r => length r = C) g ->
  grid_sum weight (transpose C g) = grid_sum weight g.
Proof.
  unfold transpose. induction 1 as [|r g Hr Hg IH].
  - apply grid_sum_map_nil.
  - cbn [map]. rewrite (grid_sum_map_cons (fun col => nth col r Empty)).
    cbn [grid_sum fold_right]. f_equal; [|exact IH].
    rewrite <- Hr. apply row_sum_nth_seq.
Qed.

Lemma grid_sum_map_rows (f : row -> row) (g : grid) :
  (forall r, row_sum weight (f r) = row_sum weight r) ->
  grid_sum weight (map f g) = grid_sum weight g.
Proof.
  intros Hf. induction g as [|r g IH]; simpl; [reflexivity|].
  now rewrite Hf, IH.
Qed.

Lemma grid_sum_map_rows_le (f : row -> row) (g : grid) :
  (forall r, (row_sum weight (f r) <= row_sum weight r)%Z) ->
  (grid_sum weight (map f g) <= grid_sum weight g)%Z.
Proof.
  intros Hf. induction g as [|r g IH]; simpl; [lia|].
  specialize (Hf r). lia.
Qed.

End Sums.

(** ** Score and Occupied cells under a slide *)

Lemma cell_eqb_eq (a b : cell) : cell_eqb a b = true <-> a = b.
Proof.
  destruct a as [|x], b as [|y]; simpl; split; intros H;
    try reflexivity; try discriminate.
  - apply Z.eqb_eq in H. now subst.
  - injection H as ->. apply Z.eqb_refl.
Qed.

Lemma merge_pairs_score (l : list cell) :
  row_sum cell_value (merge_pairs l) = row_sum cell_value l.
Proof.
  induction l as [| x | x y l E IH | x y l E IH] using merge_pairs_ind';
    cbn [merge_pairs]; try rewrite E; try reflexivity.
  - apply cell_eqb_eq in E. subst y.
    rewrite !row_sum_cons, IH. destruct x; simpl; lia.
  - rewrite (row_sum_cons _ x (y :: l)), <- IH. apply row_sum_cons.
Qed.

Lemma slide_score (r : row) :
  row_sum cell_value (slideLeftAndMergeRow r) = row_sum cell_value r.
Proof.
  rewrite slide_closed_form, row_sum_app, row_sum_repeat_Empty by reflexivity.
  rewrite merge_pairs_score, row_sum_filter_occupied by reflexivity. lia.
Qed.

Lemma row_sum_occupied (r : row) :
  row_sum occupied_weight r = Z.of_nat (row_occupied r).
Proof.
  unfold row_occupied. induction r as [|c r IH]; [reflexivity|].
  rewrite row_sum_cons, IH. cbn [filter]. unfold occupied_weight.
  destruct (is_occupied c); simpl length; lia.
Qed.

Lemma grid_sum_occupied (g : grid) :
  grid_sum occupied_weight g = Z.of_nat (occupied_count g).
Proof.
  induction g as [|r g IH]; [reflexivity|].
  rewrite grid_sum_cons, IH, row_sum_occupied.
  change (occupied_count (r :: g)) with (row_occupied r + occupied_count g).
  lia.
Qed.

Lemma filter_occupied_app_Empty (l : list cell) (n : nat) :
  filter is_occupied (l ++ repeat Empty n) = filter is_occupied l.
Proof.
  rewrite filter_app.
  replace (filter is_occupied (repeat Empty n)) with (@nil cell).
  - apply app_nil_r.
  - induction n as [|n IH]; simpl; [reflexivity | exact IH].
Qed.

Lemma slide_occupied (r : row) :
  row_occupied (slideLeftAndMergeRow r) <= row_occupied r.
Proof.
  unfold row_occupied.
  rewrite slide_closed_form, filter_occupied_app_Empty.
  pose proof (filter_length_le (merge_pairs (filter is_occupied r))).
  pose proof (merge_pairs_length (filter is_occupied r)). lia.
Qed.

Lemma filter_occupied_rev (r : row) :
  filter is_occupied (rev r) = rev (filter is_occupied r).
Proof.
  induction r as [|c r IH]; simpl; [reflexivity|].
  rewrite filter_app, IH. simpl. destruct (is_occupied c); simpl;
    [reflexivity | apply app_nil_r].
Qed.

Lemma row_occupied_rev (r : row) : row_occupied (rev r) = row_occupied r.
Proof. unfold row_occupied. now rewrite filter_occupied_rev, length_rev. Qed.

(** ** [transposeBoard] on rectangular grids *)

Lemma index_in_range {A : Type} (l : list A) (i : nat) (d : A) :
  i < length l -> index l i = Ok (nth i l d).
Proof.
  intros Hi. unfold index.
  now rewrite (nth_error_nth' l d Hi).
Qed.


Lemma append_each_ok {A : Type} (f : nat -> result A) (v : nat -> A)
    (indices : list nat) (acc : list A) :
  (forall i, In i indices -> f i = Ok (v i)) ->
  append_each f indices acc = Ok (acc ++ map v indices).
Proof.
  revert acc. induction indices as [|i rest IH]; intros acc Hf; simpl.
  - now rewrite app_nil_r.
  - rewrite (Hf i) by now left.
    rewrite IH by (intros j Hj; apply Hf; now right).
    now rewrite <- app_assoc.
Qed.

Lemma map_nth_seq {A : Type} (l : list A) (d : A) :
  map (fun i => nth i l d) (seq 0 (length l)) = l.
Proof.
  induction l as [|x l IH]; simpl; [reflexivity|].
  f_equal. rewrite <- seq_shift, map_map. exact IH.
Qed.

Lemma is_grid_row (R C : nat) (g : grid) (i : nat) :
  is_grid R C g -> i < R -> length (nth i g []) = C.
Proof.
  intros [HR HC] Hi. rewrite Forall_forall in HC.
  apply HC, nth_In. lia.
Qed.

Lemma transposeBoard_ok (R C : nat) (g : grid) :
  is_grid R C g -> 1 <= R ->
  transposeBoard g = Ok (transpose C g).
Proof.
  intros Hg HR. pose proof Hg as [HlenR HC].
  unfold transposeBoard.
  rewrite (index_in_range g [] (i := 0)) by lia.
  rewrite (is_grid_row (i := 0) Hg) by lia.
  unfold range.
  rewrite (append_each_ok _ (fun col => map (fun r => nth col r Empty) g)).
  - reflexivity.
  - intros col Hcol. apply in_seq in Hcol.
    rewrite (append_each_ok _ (fun row => nth col (nth row g []) Empty)).
    + simpl. f_equal.
      rewrite <- (map_map (fun row => nth row g []) (fun r => nth col r Empty)).
      now rewrite map_nth_seq.
    + intros row Hrow. apply in_seq in Hrow.
      rewrite (index_in_range g []) by lia.
      apply index_in_range.
      rewrite (is_grid_row (i := row) Hg); lia.
Qed.

Lemma transpose_is_grid (R C : nat) (g : grid) :
  is_grid R C g -> is_grid C R (transpose C g).
Proof.
  intros [HR HC]. unfold transpose. split.
  - now rewrite length_map, length_seq.
  - apply Forall_forall. intros r Hr.
    apply in_map_iff in Hr as (col & <- & _).
    now rewrite length_map.
Qed.

Lemma transpose_involutive (R C : nat) (g : grid) :
  is_grid R C g -> transpose R (transpose C g) = g.
Proof.
  intros Hg. pose proof Hg as [HR HC].
  apply (nth_ext _ _ [] []).
  - unfold transpose. now rewrite length_map, length_seq.
  - intros i Hi.
    unfold transpose at 1 in Hi. rewrite length_map, length_seq in Hi.
    unfold transpose at 1.
    rewrite (nth_indep _ [] (map (fun r => nth 0 r Empty) (transpose C g)))
      by now rewrite length_map, length_seq.
    rewrite (map_nth (fun col => map (fun r => nth col r Empty) (transpose C g))).
    rewrite seq_nth by assumption. cbn [Nat.add].
    unfold transpose. rewrite map_map.
    erewrite map_ext_in.
    + rewrite <- (is_grid_row (i := i) Hg) by assumption.
      apply map_nth_seq with (d := Empty).
    + intros col Hcol. cbn beta.
      rewrite (nth_indep _ Empty (nth col [] Empty))
        by (rewrite length_map; lia).
      now rewrite (map_nth (fun r => nth col r Empty)).
Qed.

(** ** Reading and writing [board] *)

Lemma get_row_ok (board : grid) (i : nat) (r : row) :
  nth_error board i = Some r -> get_row i board = (Ok r, board).
Proof. intros H. unfold get_row, index. now rewrite H. Qed.

Lemma get_cell_ok (board : grid) (i j : nat) :
  i < length board -> j < length (nth i board []) ->
  get_cell i j board = (Ok (nth j (nth i board []) Empty), board).
Proof.
  intros Hi Hj. unfold get_cell, bind.
  rewrite (get_row_ok board i (r := nth i board []))
    by now apply nth_error_nth'.
  now rewrite (index_in_range _ Empty Hj).
Qed.

Lemma nth_error_middle {A : Type} (pre suf : list A) (x : A) :
  nth_error (pre ++ x :: suf) (length pre) = Some x.
Proof. rewrite nth_error_app2 by lia. now rewrite Nat.sub_diag. Qed.

Lemma replace_nth_middle {A : Type} (pre suf : list A) (x y : A) :
  replace_nth (pre ++ x :: suf) (length pre) y = pre ++ y :: suf.
Proof. induction pre as [|z pre IH]; simpl; [reflexivity | now rewrite IH]. Qed.

Lemma replace_nth_length {A : Type} (l : list A) (i : nat) (x : A) :
  length (replace_nth l i x) = length l.
Proof.
  revert i. induction l as [|y l IH]; intros [|i]; simpl; auto.
Qed.

Lemma nth_error_replace_nth_eq {A : Type} (l : list A) (i : nat) (x : A) :
  i < length l -> nth_error (replace_nth l i x) i = Some x.
Proof.
  revert i. induction l as [|y l IH]; intros [|i] Hi; simpl in *;
    try lia; [reflexivity | apply IH; lia].
Qed.

Lemma nth_error_replace_nth_ne {A : Type} (l : list A) (i j : nat) (x : A) :
  i <> j -> nth_error (replace_nth l i x) j = nth_error l j.
Proof.
  revert i j. induction l as [|y l IH]; intros [|i] [|j] Hij; simpl;
    try reflexivity; try congruence.
  apply IH. congruence.
Qed.

Lemma replace_nth_twice {A : Type} (l : list A) (i : nat) (x y : A) :
  replace_nth (replace_nth l i x) i y = replace_nth l i y.
Proof.
  revert i. induction l as [|z l IH]; intros [|i]; simpl; try reflexivity.
  now rewrite IH.
Qed.

(** [board[i] = f(board[i])] *)
Lemma row_update_ok (f : row -> row) (board : grid) (i : nat) (r : row) :
  nth_error board i = Some r ->
  (r' <- get_row i ;; set_row i (f r')) board
  = (Ok tt, replace_nth board i (f r)).
Proof.
  intros H. unfold bind. rewrite (get_row_ok _ _ H). unfold set_row.
  assert (Hi : i < length board) by (apply nth_error_Some; congruence).
  apply Nat.ltb_lt in Hi. now rewrite Hi.
Qed.

Lemma slide_row_ok (board : grid) (i : nat) (r : row) :
  nth_error board i = Some r ->
  slide_row i board = (Ok tt, replace_nth board i (slideLeftAndMergeRow r)).
Proof. apply (row_update_ok slideLeftAndMergeRow). Qed.

Lemma reverse_row_ok (board : grid) (i : nat) (r : row) :
  nth_error board i = Some r ->
  reverse_row i board = (Ok tt, replace_nth board i (rev r)).
Proof. apply (row_update_ok (@rev cell)). Qed.

Lemma slide_right_row_ok (board : grid) (i : nat) (r : row) :
  nth_error board i = Some r ->
  (reverse_row i ;; slide_row i ;; reverse_row i) board
  = (Ok tt, replace_nth board i (slide_right r)).
Proof.
  intros H.
  assert (Hi : i < length board) by (apply nth_error_Some; congruence).
  unfold bind at 1. rewrite (reverse_row_ok _ _ H).
  unfold bind.
  rewrite slide_row_ok with (r := rev r)
    by now apply nth_error_replace_nth_eq.
  rewrite replace_nth_twice.
  rewrite reverse_row_ok with (r := slideLeftAndMergeRow (rev r))
    by now apply nth_error_replace_nth_eq.
  now rewrite replace_nth_twice.
Qed.

(** A loop over all row indices that rewrites each row with [f]. *)
Lemma for_in_rows_suffix (f : row -> row) (body : nat -> M unit) :
  (forall i board r, nth_error board i = Some r ->
                     body i board = (Ok tt, replace_nth board i (f r))) ->
  forall suf pre,
    for_in (seq (length pre) (length suf)) body (pre ++ suf)
    = (Ok tt, pre ++ map f suf).
Proof.
  intros Hbody. unfold for_in.
  induction suf as [|r suf IH]; intros pre; [reflexivity|].
  cbn [length seq fold_in map]. unfold bind.
  rewrite (Hbody _ _ r) by apply nth_error_middle.
  rewrite replace_nth_middle.
  replace (pre ++ f r :: suf) with ((pre ++ [f r]) ++ suf)
    by now rewrite <- app_assoc.
  replace (S (length pre)) with (length (pre ++ [f r]))
    by (rewrite length_app; simpl; lia).
  rewrite IH. now rewrite <- app_assoc.
Qed.

Lemma for_in_rows (f : row -> row) (body : nat -> M unit) (board : grid) :
  (forall i board r, nth_error board i = Some r ->
                     body i board = (Ok tt, replace_nth board i (f r))) ->
  for_in (range (length board)) body board = (Ok tt, map f board).
Proof. intros Hbody. exact (for_in_rows_suffix f body Hbody board []). Qed.

Lemma transpose_in_place_ok (R C : nat) (board : grid) :
  is_grid R C board -> 1 <= R ->
  transpose_in_place board = (Ok tt, transpose C board).
Proof.
  intros Hg HR. unfold transpose_in_place, bind, get_board.
  now rewrite (transposeBoard_ok Hg HR).
Qed.

Lemma map_is_grid (R C : nat) (f : row -> row) (g : grid) :
  (forall r, length (f r) = length r) ->
  is_grid R C g -> is_grid R C (map f g).
Proof.
  intros Hf [HR HC]. split.
  - now rewrite length_map.
  - apply Forall_forall. intros r Hr.
    apply in_map_iff in Hr as (r0 & <- & Hr0).
    rewrite Forall_forall in HC. rewrite Hf. now apply HC.
Qed.

Lemma slide_right_length (r : row) : length (slide_right r) = length r.
Proof. unfold slide_right. now rewrite length_rev, slide_length, length_rev. Qed.

(** On a square grid each of the four moves returns, and the board it
    leaves is [moved move g]. *)
Lemma update_square (n : nat) (move : string) (g : grid) :
  is_grid n n g -> 1 <= n -> is_direction move ->
  updateTheBoardBasedOnTheUserMove move g = (Ok tt, moved move g).
Proof.
  intros Hg Hn Hmove. pose proof Hg as [Hlen Hrows].
  assert (H0 : get_row 0 g = (Ok (nth 0 g []), g)).
  { apply get_row_ok, nth_error_nth'. lia. }
  assert (Ht : is_grid n n (transpose n g)) by now apply transpose_is_grid.
  unfold updateTheBoardBasedOnTheUserMove, moved.
  unfold bind at 1. unfold get_board at 1. cbv iota beta.
  unfold bind at 1. rewrite H0.
  destruct Hmove as [-> | [-> | [-> | ->]]]; cbn [String.eqb Ascii.eqb Bool.eqb].
  - apply for_in_rows. intros i b r. apply slide_row_ok.
  - apply for_in_rows. intros i b r. apply slide_right_row_ok.
  - unfold bind at 1. rewrite (transpose_in_place_ok Hg Hn).
    unfold bind at 1.
    replace (length g) with (length (transpose n g)) at 1
      by (destruct Ht as [-> _]; now rewrite Hlen).
    rewrite (for_in_rows slideLeftAndMergeRow)
      by (intros i b r; apply slide_row_ok).
    rewrite Hlen.
    apply (transpose_in_place_ok (R := n)); [|assumption].
    apply map_is_grid; [apply slide_length | assumption].
  - unfold bind at 1. rewrite (transpose_in_place_ok Hg Hn).
    unfold bind at 1.
    replace (length g) with (length (transpose n g)) at 1
      by (destruct Ht as [-> _]; now rewrite Hlen).
    rewrite (for_in_rows slide_right)
      by (intros i b r; apply slide_right_row_ok).
    rewrite Hlen.
    apply (transpose_in_place_ok (R := n)); [|assumption].
    apply map_is_grid; [apply slide_right_length | assumption].
Qed.

(** ** Loops that only read [board] *)

Lemma fold_in_pure {I S : Type} (indices : list I) (body : I -> S -> M S)
    (v : I -> S -> S) (board : grid) :
  (forall i s, In i indices -> body i s board = (Ok (v i s), board)) ->
  forall s,
    fold_in indices body s board
    = (Ok (fold_left (fun s i => v i s) indices s), board).
Proof.
  induction indices as [|i rest IH]; intros Hbody s; [reflexivity|].
  cbn [fold_in fold_left]. unfold bind.
  rewrite Hbody by now left.
  apply IH. intros j s' Hj. apply Hbody. now right.
Qed.

Lemma for_in_return_pure {I R : Type} (indices : list I)
    (body : I -> M (option R)) (v : I -> option R) (board : grid) :
  (forall i, In i indices -> body i board = (Ok (v i), board)) ->
  for_in_return indices body board = (Ok (first_some v indices), board).
Proof.
  induction indices as [|i rest IH]; intros Hbody; [reflexivity|].
  cbn [for_in_return first_some]. unfold bind.
  rewrite Hbody by now left.
  destruct (v i) as [x|]; [reflexivity|].
  apply IH. intros j Hj. apply Hbody. now right.
Qed.


Lemma fold_left_nth_seq {A S : Type} (h : S -> A -> S) (l : list A) (d : A) (s : S) :
  fold_left (fun s i => h s (nth i l d)) (seq 0 (length l)) s
  = fold_left h l s.
Proof.
  rewrite <- (map_nth_seq l d) at 2.
  generalize (seq 0 (length l)) as indices. intros indices. revert s.
  induction indices as [|i rest IH]; intros s; [reflexivity | apply IH].
Qed.

(** The cells the nested loops of the source visit, on a grid. *)
Lemma get_cell_grid (R C : nat) (board : grid) (i j : nat) :
  is_grid R C board -> i < R -> j < C ->
  get_cell i j board = (Ok (nth j (nth i board []) Empty), board).
Proof.
  intros Hg Hi Hj. pose proof Hg as [HR _].
  apply get_cell_ok; [lia|].
  now rewrite (is_grid_row Hg Hi).
Qed.

Lemma get_first_row (R C : nat) (board : grid) :
  is_grid R C board -> 1 <= R ->
  get_row 0 board = (Ok (nth 0 board []), board) /\ length (nth 0 board []) = C.
Proof.
  intros Hg HR. pose proof Hg as [Hlen _]. split.
  - apply get_row_ok, nth_error_nth'. lia.
  - apply (is_grid_row Hg). lia.
Qed.

(** ** [getCurrentScore] *)

Lemma fold_left_add_weight (weight : cell -> Z) (r : row) (s : Z) :
  fold_left (fun s c => (s + weight c)%Z) r s = (s + row_sum weight r)%Z.
Proof.
  revert s. induction r as [|c r IH]; intros s; simpl; [lia|].
  rewrite IH. lia.
Qed.

Lemma fold_left_add_rows (weight : cell -> Z) (g : grid) (s : Z) :
  fold_left (fun s r => (s + row_sum weight r)%Z) g s
  = (s + grid_sum weight g)%Z.
Proof.
  revert s. induction g as [|r g IH]; intros s; simpl; [lia|].
  rewrite IH. lia.
Qed.

Lemma getCurrentScore_grid (R C : nat) (board : grid) :
  is_grid R C board -> 1 <= R ->
  getCurrentScore board = (Ok (grid_score board), board).
Proof.
  intros Hg HR. pose proof Hg as [Hlen _].
  destruct (get_first_row Hg HR) as [H0 HC].
  unfold getCurrentScore.
  unfold bind at 1. unfold get_board at 1. cbv iota beta.
  unfold bind at 1. rewrite H0, HC, Hlen. unfold range.
  rewrite (fold_in_pure _ _
             (fun row s => (s + row_sum cell_value (nth row board []))%Z)).
  - f_equal. f_equal. unfold grid_score.
    rewrite <- Hlen.
    rewrite (fold_left_nth_seq
               (fun s r => (s + row_sum cell_value r)%Z) board [] 0%Z).
    now rewrite fold_left_add_rows.
  - intros row s Hrow. apply in_seq in Hrow.
    rewrite (fold_in_pure _ _
               (fun col s => (s + cell_value (nth col (nth row board []) Empty))%Z)).
    + f_equal. f_equal.
      rewrite <- (is_grid_row (i := row) Hg) by lia.
      rewrite (fold_left_nth_seq (fun s c => (s + cell_value c)%Z)).
      apply fold_left_add_weight.
    + intros col s' Hcol. apply in_seq in Hcol. unfold bind.
      rewrite (get_cell_grid (i := row) (j := col) Hg) by lia.
      destruct (nth col (nth row board []) Empty); simpl; unfold ret;
        f_equal; f_equal; lia.
Qed.

(** ** The four moves on a square grid *)

Lemma slide_right_score (r : row) :
  row_sum cell_value (slide_right r) = row_sum cell_value r.
Proof. unfold slide_right. now rewrite row_sum_rev, slide_score, row_sum_rev. Qed.

Lemma slide_right_occupied (r : row) :
  row_occupied (slide_right r) <= row_occupied r.
Proof.
  unfold slide_right. rewrite row_occupied_rev.
  rewrite <- (row_occupied_rev r). apply slide_occupied.
Qed.

Lemma moved_is_grid (n : nat) (move : string) (g : grid) :
  is_grid n n g -> is_grid n n (moved move g).
Proof.
  intros Hg. pose proof Hg as [Hlen _]. unfold moved. rewrite Hlen.
  pose proof (transpose_is_grid Hg) as Ht.
  destruct (String.eqb move "A"); [|destruct (String.eqb move "D");
    [|destruct (String.eqb move "W")]].
  - apply map_is_grid; [apply slide_length | assumption].
  - apply map_is_grid; [apply slide_right_length | assumption].
  - apply transpose_is_grid, map_is_grid; [apply slide_length | assumption].
  - apply transpose_is_grid, map_is_grid; [apply slide_right_length | assumption].
Qed.

Lemma moved_score (n : nat) (move : string) (g : grid) :
  is_grid n n g -> grid_score (moved move g) = grid_score g.
Proof.
  intros Hg. pose proof Hg as [Hlen Hrows]. unfold moved, grid_score.
  rewrite Hlen.
  pose proof (transpose_is_grid Hg) as Ht.
  destruct (String.eqb move "A"); [|destruct (String.eqb move "D");
    [|destruct (String.eqb move "W")]].
  - apply grid_sum_map_rows, slide_score.
  - apply grid_sum_map_rows, slide_right_score.
  - rewrite grid_sum_transpose
      by (apply (map_is_grid slideLeftAndMergeRow slide_length Ht)).
    rewrite grid_sum_map_rows by apply slide_score.
    now apply grid_sum_transpose.
  - rewrite grid_sum_transpose
      by (apply (map_is_grid slide_right slide_right_length Ht)).
    rewrite grid_sum_map_rows by apply slide_right_score.
    now apply grid_sum_transpose.
Qed.

Lemma occupied_count_transpose (C : nat) (g : grid) :
  Forall (fun r => length r = C) g ->
  occupied_count (transpose C g) = occupied_count g.
Proof.
  intros Hg. apply Nat2Z.inj.
  rewrite <- !grid_sum_occupied. now apply grid_sum_transpose.
Qed.

Lemma occupied_count_map_le (f : row -> row) (g : grid) :
  (forall r, row_occupied (f r) <= row_occupied r) ->
  occupied_count (map f g) <= occupied_count g.
Proof.
  intros Hf. apply Nat2Z.inj_le. rewrite <- !grid_sum_occupied.
  apply grid_sum_map_rows_le. intros r.
  rewrite !row_sum_occupied. apply Nat2Z.inj_le, Hf.
Qed.

Lemma moved_occupied (n : nat) (move : string) (g : grid) :
  is_grid n n g -> occupied_count (moved move g) <= occupied_count g.
Proof.
  intros Hg. pose proof Hg as [Hlen Hrows]. unfold moved.
  rewrite Hlen.
  pose proof (transpose_is_grid Hg) as Ht.
  destruct (String.eqb move "A"); [|destruct (String.eqb move "D");
    [|destruct (String.eqb move "W")]].
  - apply occupied_count_map_le, slide_occupied.
  - apply occupied_count_map_le, slide_right_occupied.
  - rewrite occupied_count_transpose
      by (apply (map_is_grid slideLeftAndMergeRow slide_length Ht)).
    rewrite <- (occupied_count_transpose Hrows).
    apply occupied_count_map_le, slide_occupied.
  - rewrite occupied_count_transpose
      by (apply (map_is_grid slide_right slide_right_length Ht)).
    rewrite <- (occupied_count_transpose Hrows).
    apply occupied_count_map_le, slide_right_occupied.
Qed.

(** ** The claims about a move *)

(** C1: on every 4x4 grid and for each of the moves A, D, W, S,
    [updateTheBoardBasedOnTheUserMove] returns, and [getCurrentScore]
    returns the same number before and after it, the sum of the numbers
    on the board. *)
Theorem move_preserves_score (g : grid) (move : string) :
  is_grid 4 4 g -> is_direction move ->
  exists g' s,
    getCurrentScore g = (Ok s, g)
    /\ updateTheBoardBasedOnTheUserMove move g = (Ok tt, g')
    /\ getCurrentScore g' = (Ok s, g')
    /\ s = grid_score g.
Proof.
  intros Hg Hmove.
  exists (moved move g), (grid_score g). repeat split.
  - apply (getCurrentScore_grid Hg). lia.
  - apply (update_square Hg); [lia | assumption].
  - rewrite <- (moved_score move Hg).
    apply (getCurrentScore_grid (moved_is_grid move Hg)). lia.
Qed.

Lemma move_preserves_score_witness :
  exists g' s,
    getCurrentScore sample_board = (Ok s, sample_board)
    /\ updateTheBoardBasedOnTheUserMove "W" sample_board = (Ok tt, g')
    /\ getCurrentScore g' = (Ok s, g')
    /\ s = grid_score sample_board.
Proof.
  apply (@move_preserves_score sample_board "W").
  - split; [reflexivity | repeat constructor].
  - right; right; left; reflexivity.
Defined.

(** C2: on every 4x4 grid and for each of the moves A, D, W, S, the board
    after [updateTheBoardBasedOnTheUserMove] has at most as many Occupied
    cells as the board before. *)
Theorem move_never_adds_cells (g : grid) (move : string) :
  is_grid 4 4 g -> is_direction move ->
  exists g',
    updateTheBoardBasedOnTheUserMove move g = (Ok tt, g')
    /\ occupied_count g' <= occupied_count g.
Proof.
  intros Hg Hmove. exists (moved move g). split.
  - apply (update_square Hg); [lia | assumption].
  - apply (moved_occupied move Hg).
Qed.

Lemma move_never_adds_cells_witness :
  exists g',
    updateTheBoardBasedOnTheUserMove "S" sample_board = (Ok tt, g')
    /\ occupied_count g' <= occupied_count sample_board.
Proof.
  apply (@move_never_adds_cells sample_board "S").
  - split; [reflexivity | repeat constructor].
  - right; right; right; reflexivity.
Defined.

(** C4: the two rows of the specification's examples:
    [slideLeftAndMergeRow([2,2,4,''])] is [[4,4,'','']] and
    [slideLeftAndMergeRow([2,'',2,2])] is [[4,2,'','']]. *)
Theorem slide_examples :
  slideLeftAndMergeRow [Num 2; Num 2; Num 4; Empty]
  = [Num 4; Num 4; Empty; Empty]
  /\ slideLeftAndMergeRow [Num 2; Empty; Num 2; Num 2]
     = [Num 4; Num 2; Empty; Empty].
Proof. split; reflexivity. Qed.

(** ** When a second slide changes a row *)

Lemma merge_pairs_eq (x y : cell) (l : list cell) :
  cell_eqb x y = true ->
  merge_pairs (x :: y :: l) = cell_double x :: merge_pairs l.
Proof. intros E. cbn [merge_pairs]. now rewrite E. Qed.

Lemma merge_pairs_ne (x y : cell) (l : list cell) :
  cell_eqb x y = false ->
  merge_pairs (x :: y :: l) = x :: merge_pairs (y :: l).
Proof. intros E. change (merge_pairs (x :: y :: l))
  with (if cell_eqb x y then cell_double x :: merge_pairs l
        else x :: merge_pairs (y :: l)). now rewrite E. Qed.

Lemma has_equal_neighbours_cons (x y : cell) (l : list cell) :
  has_equal_neighbours (x :: y :: l)
  = cell_eqb x y || has_equal_neighbours (y :: l).
Proof. reflexivity. Qed.

Lemma has_equal_neighbours_iff (l : list cell) :
  has_equal_neighbours l = true
  <-> exists l1 x l2, l = l1 ++ x :: x :: l2.
Proof.
  split.
  - induction l as [|x l IH]; [discriminate|].
    destruct l as [|y l]; [discriminate|].
    cbn [has_equal_neighbours]. intros H.
    apply orb_true_iff in H as [H | H].
    + apply cell_eqb_eq in H. subst y. now exists [], x, l.
    + destruct (IH H) as (l1 & z & l2 & E).
      exists (x :: l1), z, l2. now rewrite E.
  - intros (l1 & x & l2 & ->).
    induction l1 as [|a l1 IH].
    + cbn. replace (cell_eqb x x) with true; [reflexivity|].
      symmetry. now apply cell_eqb_eq.
    + cbn [app has_equal_neighbours].
      destruct (l1 ++ x :: x :: l2) as [|b rest] eqn:E.
      * now destruct l1.
      * rewrite IH. apply orb_true_r.
Qed.

Lemma has_equal_neighbours_rev (l : list cell) :
  has_equal_neighbours (rev l) = has_equal_neighbours l.
Proof.
  apply eq_iff_eq_true. rewrite !has_equal_neighbours_iff.
  split; intros (l1 & x & l2 & E).
  - exists (rev l2), x, (rev l1).
    rewrite <- (rev_involutive l), E, rev_app_distr. simpl.
    now rewrite <- !app_assoc.
  - exists (rev l2), x, (rev l1).
    rewrite E, rev_app_distr. simpl. now rewrite <- !app_assoc.
Qed.

Lemma merge_pairs_fixed (l : list cell) :
  has_equal_neighbours l = false -> merge_pairs l = l.
Proof.
  induction l as [| x | x y l E IH | x y l E IH] using merge_pairs_ind';
    try reflexivity; rewrite has_equal_neighbours_cons, E.
  - discriminate.
  - cbn [orb]. intros H. rewrite merge_pairs_ne by exact E. now rewrite IH.
Qed.

Lemma merge_pairs_shrinks (l : list cell) :
  has_equal_neighbours l = true -> length (merge_pairs l) < length l.
Proof.
  induction l as [| x | x y l E IH | x y l E IH] using merge_pairs_ind';
    try discriminate; rewrite has_equal_neighbours_cons, E.
  - intros _. rewrite merge_pairs_eq by exact E.
    pose proof (merge_pairs_length l). simpl. lia.
  - cbn [orb]. intros H. specialize (IH H).
    rewrite merge_pairs_ne by exact E. simpl length in *. lia.
Qed.

Lemma filter_occupied_id (l : list cell) :
  Forall (fun c => is_occupied c = true) l -> filter is_occupied l = l.
Proof.
  induction 1 as [|c l Hc Hl IH]; simpl; [reflexivity|].
  now rewrite Hc, IH.
Qed.

Lemma filter_occupied_all (l : list cell) :
  Forall (fun c => is_occupied c = true) (filter is_occupied l).
Proof.
  apply Forall_forall. intros c Hc. now apply filter_In in Hc.
Qed.

Lemma merge_pairs_all_occupied (l : list cell) :
  Forall (fun c => is_occupied c = true) l ->
  Forall (fun c => is_occupied c = true) (merge_pairs l).
Proof.
  induction l as [| x | x y l E IH | x y l E IH] using merge_pairs_ind';
    intros H; try assumption.
  - rewrite merge_pairs_eq by exact E.
    inversion H as [|? ? Hx Hrest]; subst.
    inversion Hrest as [|? ? Hy Hl]; subst.
    constructor; [now destruct x | now apply IH].
  - rewrite merge_pairs_ne by exact E.
    inversion H as [|? ? Hx Hrest]; subst.
    constructor; [assumption | now apply IH].
Qed.

(** The Occupied cells of a slid row are the merged Occupied cells of the
    row. *)
Lemma slide_filter_occupied (r : row) :
  filter is_occupied (slideLeftAndMergeRow r)
  = merge_pairs (filter is_occupied r).
Proof.
  rewrite slide_closed_form, filter_occupied_app_Empty.
  apply filter_occupied_id, merge_pairs_all_occupied, filter_occupied_all.
Qed.

Lemma slide_fixed_not_mergeable (r : row) :
  slideLeftAndMergeRow r = r -> mergeable_line r = false.
Proof.
  intros Hfix. unfold mergeable_line.
  destruct (has_equal_neighbours (filter is_occupied r)) eqn:E; [|reflexivity].
  apply merge_pairs_shrinks in E.
  rewrite <- slide_filter_occupied, Hfix in E. lia.
Qed.

Lemma slide_packed_fixed (r : row) :
  mergeable_line (slideLeftAndMergeRow r) = false ->
  slideLeftAndMergeRow (slideLeftAndMergeRow r) = slideLeftAndMergeRow r.
Proof.
  unfold mergeable_line. rewrite slide_filter_occupied. intros H.
  rewrite (slide_closed_form (slideLeftAndMergeRow r)).
  rewrite slide_filter_occupied, slide_length.
  rewrite (merge_pairs_fixed _ H).
  symmetry. apply slide_closed_form.
Qed.

(** A second slide to the left leaves the row as the first slide left it
    exactly when the first slide left nothing to merge. *)
Lemma slide_twice_iff (r : row) :
  slideLeftAndMergeRow (slideLeftAndMergeRow r) = slideLeftAndMergeRow r
  <-> mergeable_line (slideLeftAndMergeRow r) = false.
Proof.
  split; [apply slide_fixed_not_mergeable | apply slide_packed_fixed].
Qed.

Lemma mergeable_line_rev (r : row) : mergeable_line (rev r) = mergeable_line r.
Proof.
  unfold mergeable_line.
  now rewrite filter_occupied_rev, has_equal_neighbours_rev.
Qed.

Lemma rev_injective {A : Type} (l1 l2 : list A) : rev l1 = rev l2 -> l1 = l2.
Proof.
  intros H. rewrite <- (rev_involutive l1), <- (rev_involutive l2).
  now rewrite H.
Qed.

Lemma slide_right_twice_iff (r : row) :
  slide_right (slide_right r) = slide_right r
  <-> mergeable_line (slide_right r) = false.
Proof.
  unfold slide_right. rewrite rev_involutive, mergeable_line_rev.
  rewrite <- slide_twice_iff. split.
  - apply rev_injective.
  - now intros ->.
Qed.

Lemma map_twice_iff (f : row -> row) (g : grid) :
  (forall r, f (f r) = f r <-> mergeable_line (f r) = false) ->
  map f (map f g) = map f g <-> existsb mergeable_line (map f g) = false.
Proof.
  intros Hf. induction g as [|r g IH]; [now split|].
  cbn [map existsb]. rewrite orb_false_iff, <- IH, <- Hf. split.
  - intros H. injection H as H1 H2. now split.
  - intros [H1 H2]. now rewrite H1, H2.
Qed.

(** ** The same move twice on a square grid *)

Lemma transpose_injective (n : nat) (a b : grid) :
  is_grid n n a -> is_grid n n b ->
  transpose n a = transpose n b -> a = b.
Proof.
  intros Ha Hb H.
  rewrite <- (transpose_involutive Ha), <- (transpose_involutive Hb).
  now rewrite H.
Qed.

Lemma columns_twice_iff (n : nat) (f : row -> row) (g : grid) :
  (forall r, length (f r) = length r) ->
  (forall r, f (f r) = f r <-> mergeable_line (f r) = false) ->
  is_grid n n g -> 1 <= n ->
  let g1 := transpose n (map f (transpose n g)) in
  transpose n (map f (transpose n g1)) = g1
  <-> existsb mergeable_line (transpose (length (nth 0 g1 [])) g1) = false.
Proof.
  intros Hlen Hf Hg Hn g1.
  assert (Ht : is_grid n n (map f (transpose n g)))
    by (apply map_is_grid; [assumption | now apply transpose_is_grid]).
  assert (Hg1 : is_grid n n g1) by now apply transpose_is_grid.
  rewrite (is_grid_row (i := 0) Hg1) by lia.
  unfold g1. rewrite (transpose_involutive Ht).
  rewrite <- (map_twice_iff f (transpose n g) Hf).
  split.
  - apply transpose_injective; [|assumption].
    apply map_is_grid; assumption.
  - now intros ->.
Qed.

Lemma moved_twice_iff (n : nat) (move : string) (g : grid) :
  is_grid n n g -> 1 <= n -> is_direction move ->
  moved move (moved move g) = moved move g
  <-> can_merge move (moved move g) = false.
Proof.
  intros Hg Hn Hmove.
  pose proof (moved_is_grid move Hg) as [Hlen1 _].
  pose proof Hg as [Hlen _].
  unfold can_merge, lines. unfold moved at 1 3. rewrite Hlen1.
  unfold moved. rewrite Hlen.
  destruct Hmove as [-> | [-> | [-> | ->]]];
    cbn [String.eqb Ascii.eqb Bool.eqb orb].
  - apply map_twice_iff, slide_twice_iff.
  - apply map_twice_iff, slide_right_twice_iff.
  - apply (columns_twice_iff slideLeftAndMergeRow slide_length
             slide_twice_iff Hg Hn).
  - apply (columns_twice_iff slide_right slide_right_length
             slide_right_twice_iff Hg Hn).
Qed.

(** C3, as the specification states it, fails on its own example board:
    moving left turns row 0 from [[2,2,4,'']] into [[4,4,'','']], and
    moving left again turns it into [[8,'','','']]. *)
Lemma move_twice_not_idempotent :
  is_grid 4 4 example_board
  /\ exists g1 g2,
       updateTheBoardBasedOnTheUserMove "A" example_board = (Ok tt, g1)
       /\ updateTheBoardBasedOnTheUserMove "A" g1 = (Ok tt, g2)
       /\ nth 0 g1 [] = [Num 4; Num 4; Empty; Empty]
       /\ nth 0 g2 [] = [Num 8; Empty; Empty; Empty]
       /\ g2 <> g1.
Proof.
  split; [split; [reflexivity | repeat constructor]|].
  exists ([Num 4; Num 4; Empty; Empty] :: repeat (repeat Empty 4) 3).
  exists ([Num 8; Empty; Empty; Empty] :: repeat (repeat Empty 4) 3).
  split; [reflexivity|]. split; [reflexivity|].
  split; [reflexivity|]. split; [reflexivity|]. discriminate.
Qed.

(** C3, amended: on every 4x4 grid and for each of the moves A, D, W, S,
    both applications return, and the second one leaves the board as the
    first one left it exactly when, after the first, no line along the
    move (a row for A and D, a column for W and S) holds two equal
    Occupied cells with only Empty cells between them. *)
Theorem move_twice_same_iff_nothing_to_merge (g : grid) (move : string) :
  is_grid 4 4 g -> is_direction move ->
  exists g1 g2,
    updateTheBoardBasedOnTheUserMove move g = (Ok tt, g1)
    /\ updateTheBoardBasedOnTheUserMove move g1 = (Ok tt, g2)
    /\ (g2 = g1 <-> can_merge move g1 = false).
Proof.
  intros Hg Hmove.
  exists (moved move g), (moved move (moved move g)). split; [|split].
  - apply (update_square Hg); [lia | assumption].
  - apply (update_square (moved_is_grid move Hg)); [lia | assumption].
  - apply (moved_twice_iff Hg); [lia | assumption].
Qed.

Lemma move_twice_same_iff_nothing_to_merge_witness :
  exists g1 g2,
    updateTheBoardBasedOnTheUserMove "D" sample_board = (Ok tt, g1)
    /\ updateTheBoardBasedOnTheUserMove "D" g1 = (Ok tt, g2)
    /\ (g2 = g1 <-> can_merge "D" g1 = false).
Proof.
  apply (@move_twice_same_iff_nothing_to_merge sample_board "D").
  - split; [reflexivity | repeat constructor].
  - right; left; reflexivity.
Defined.

(** ** A move that is none of A, D, W, S *)

Lemma not_direction_eqb (move : string) :
  ~ is_direction move ->
  String.eqb move "A" = false /\ String.eqb move "D" = false
  /\ String.eqb move "W" = false /\ String.eqb move "S" = false.
Proof.
  intros H. unfold is_direction in H.
  repeat split; apply String.eqb_neq; intros E; apply H; auto.
Qed.

(** C9: for every string other than A, D, W, S and every board,
    [updateTheBoardBasedOnTheUserMove] raises and leaves the board as it
    was; on a board with a first row the exception is the
    [RuntimeError("Unexpected logic path")] of the last branch. *)
Theorem invalid_move_raises (move : string) (board : grid) :
  ~ is_direction move ->
  (exists e, updateTheBoardBasedOnTheUserMove move board = (Raise e, board))
  /\ (board <> [] ->
      updateTheBoardBasedOnTheUserMove move board
      = (Raise (RuntimeError "Unexpected logic path"), board)).
Proof.
  intros H. destruct (not_direction_eqb H) as (HA & HD & HW & HS).
  unfold updateTheBoardBasedOnTheUserMove.
  destruct board as [|first_row rest].
  - split; [now exists IndexError | congruence].
  - unfold bind, get_board, get_row, index. cbn [nth_error].
    rewrite HA, HD, HW, HS.
    split; [eexists; reflexivity | reflexivity].
Qed.

Lemma invalid_move_raises_witness :
  (exists e, updateTheBoardBasedOnTheUserMove "Q" sample_board
             = (Raise e, sample_board))
  /\ (sample_board <> [] ->
      updateTheBoardBasedOnTheUserMove "Q" sample_board
      = (Raise (RuntimeError "Unexpected logic path"), sample_board)).
Proof.
  apply (@invalid_move_raises "Q" sample_board).
  intros [H | [H | [H | H]]]; discriminate H.
Defined.

(** ** Transposing twice *)

(** C7, as stated for every rectangular grid, fails on the grid of one
    row and no column: its transpose has no row left, and transposing
    that raises [IndexError] at [current_board[0]]. *)
Lemma transpose_twice_no_column :
  is_grid 1 0 [[]]
  /\ transposeBoard [[]] = Ok []
  /\ transpose_twice [[]] = Raise IndexError
  /\ transpose_twice [[]] <> Ok [[]].
Proof.
  split; [split; [reflexivity | repeat constructor]|].
  split; [reflexivity|]. split; [reflexivity | discriminate].
Qed.

(** C7, amended: for every rectangular grid with at least one row and at
    least one column, [transposeBoard(transposeBoard(G))] returns [G]. *)
Theorem transpose_twice_identity (R C : nat) (g : grid) :
  is_grid R C g -> 1 <= R -> 1 <= C ->
  transpose_twice g = Ok g.
Proof.
  intros Hg HR HC. unfold transpose_twice.
  rewrite (transposeBoard_ok Hg HR).
  rewrite (transposeBoard_ok (transpose_is_grid Hg) HC).
  now rewrite (transpose_involutive Hg).
Qed.

Lemma transpose_twice_identity_witness : transpose_twice small_board = Ok small_board.
Proof.
  apply (@transpose_twice_identity 2 3 small_board).
  - split; [reflexivity | repeat constructor].
  - lia.
  - lia.
Defined.

(** ** [isFull] *)

Lemma first_some_None_iff {I R : Type} (v : I -> option R) (indices : list I) :
  first_some v indices = None <-> forall i, In i indices -> v i = None.
Proof.
  induction indices as [|i rest IH]; simpl.
  - split; [intros _ i [] | reflexivity].
  - destruct (v i) as [x|] eqn:E.
    + split; [discriminate|]. intros H.
      specialize (H i (or_introl eq_refl)). congruence.
    + rewrite IH. split.
      * intros H j [<- | Hj]; [assumption | now apply H].
      * intros H j Hj. apply H. now right.
Qed.

Lemma first_some_Some {I R : Type} (v : I -> option R) (indices : list I) (x : R) :
  first_some v indices = Some x -> exists i, In i indices /\ v i = Some x.
Proof.
  induction indices as [|i rest IH]; simpl; [discriminate|].
  destruct (v i) as [y|] eqn:E.
  - intros H. exists i. split; [now left | congruence].
  - intros H. destruct (IH H) as (j & Hj & Hv).
    exists j. split; [now right | assumption].
Qed.

Lemma row_occupied_le (r : row) : row_occupied r <= length r.
Proof. apply filter_length_le. Qed.

Lemma row_occupied_full (r : row) :
  row_occupied r = length r <-> Forall (fun c => is_empty c = false) r.
Proof.
  unfold row_occupied. induction r as [|c r IH]; simpl.
  - split; [constructor | reflexivity].
  - pose proof (filter_length_le r) as Hle.
    destruct c as [|x]; simpl.
    + split; [lia | intros H; inversion H; discriminate].
    + split.
      * intros H. constructor; [reflexivity | apply IH; lia].
      * intros H. inversion H; subst. f_equal. now apply IH.
Qed.

Lemma occupied_count_le (R C : nat) (g : grid) :
  is_grid R C g -> occupied_count g <= R * C.
Proof.
  intros [<- HC]. induction HC as [|r g Hr Hg IH]; simpl; [lia|].
  pose proof (row_occupied_le r). lia.
Qed.

Lemma occupied_count_full (R C : nat) (g : grid) :
  is_grid R C g ->
  occupied_count g = R * C
  <-> Forall (Forall (fun c => is_empty c = false)) g.
Proof.
  intros [<- HC]. induction HC as [|r g Hr Hg IH]; simpl.
  - split; [constructor | reflexivity].
  - pose proof (row_occupied_le r) as Hle.
    assert (Hg' : is_grid (length g) C g) by now split.
    pose proof (occupied_count_le Hg') as Hle'.
    split.
    + intros H. constructor.
      * apply row_occupied_full. lia.
      * apply IH. lia.
    + intros H. inversion H as [|? ? H1 H2]; subst.
      apply row_occupied_full in H1. apply IH in H2. lia.
Qed.

Lemma all_occupied_nth (R C : nat) (g : grid) :
  is_grid R C g ->
  Forall (Forall (fun c => is_empty c = false)) g
  <-> forall i j, i < R -> j < C ->
                  is_empty (nth j (nth i g []) Empty) = false.
Proof.
  intros Hg. pose proof Hg as [HR HC]. split.
  - intros H i j Hi Hj.
    rewrite Forall_forall in H.
    assert (Hin : In (nth i g []) g) by (apply nth_In; lia).
    specialize (H _ Hin).
    rewrite Forall_forall in H. apply H, nth_In.
    now rewrite (is_grid_row Hg Hi).
  - intros H. apply Forall_forall. intros r Hr.
    apply (In_nth _ _ []) in Hr as (i & Hi & <-).
    apply Forall_forall. intros c Hc.
    apply (In_nth _ _ Empty) in Hc as (j & Hj & <-).
    apply H; [lia|]. now rewrite (is_grid_row (i := i) Hg) in Hj by lia.
Qed.

Lemma isFull_grid (R C : nat) (board : grid) :
  is_grid R C board -> 1 <= R ->
  exists b,
    isFull board = (Ok b, board)
    /\ (b = true <-> forall i j, i < R -> j < C ->
                      is_empty (nth j (nth i board []) Empty) = false).
Proof.
  intros Hg HR. pose proof Hg as [Hlen _].
  destruct (get_first_row Hg HR) as [H0 HC].
  unfold isFull.
  unfold bind at 1. unfold get_board at 1. cbv iota beta.
  unfold bind at 1. rewrite H0, HC, Hlen. unfold range.
  set (inner := fun row col =>
         if is_empty (nth col (nth row board []) Empty)
         then Some false else @None bool).
  unfold bind.
  rewrite (for_in_return_pure _ _
             (fun row => first_some (inner row) (seq 0 C))).
  - destruct (first_some _ (seq 0 R)) as [v|] eqn:E; eexists;
      (split; [reflexivity|]).
    + apply first_some_Some in E as (i & Hi & E).
      apply first_some_Some in E as (j & Hj & E).
      apply in_seq in Hi, Hj. unfold inner in E.
      destruct (is_empty (nth j (nth i board []) Empty)) eqn:Eij;
        [|discriminate].
      injection E as <-. split; [discriminate|].
      intros H. rewrite H in Eij by lia. discriminate.
    + split; [|reflexivity]. intros _ i j Hi Hj.
      rewrite first_some_None_iff in E.
      assert (Hi' : In i (seq 0 R)) by (apply in_seq; lia).
      assert (Hj' : In j (seq 0 C)) by (apply in_seq; lia).
      specialize (E i Hi').
      rewrite first_some_None_iff in E.
      specialize (E j Hj'). unfold inner in E.
      now destruct (is_empty (nth j (nth i board []) Empty)).
  - intros row Hrow. apply in_seq in Hrow.
    apply for_in_return_pure. intros col Hcol. apply in_seq in Hcol.
    unfold bind. rewrite (get_cell_grid (i := row) (j := col) Hg) by lia.
    unfold inner. now destruct (is_empty _).
Qed.

(** C6, as stated for every grid state, fails on the board without rows,
    the value [board] has until [init] runs: it has 0 = R x C Occupied
    cells and no cell holds [""], yet [isFull] does not return [True], it
    raises [IndexError] at [board[0]]. *)
Lemma isFull_raises_without_rows :
  is_grid 0 0 initial_board
  /\ occupied_count initial_board = 0 * 0
  /\ (forall r c, In r initial_board -> In c r -> c <> Empty)
  /\ isFull initial_board = (Raise IndexError, initial_board)
  /\ isFull initial_board <> (Ok true, initial_board).
Proof.
  split; [split; [reflexivity | constructor]|].
  split; [reflexivity|]. split; [intros r c []|].
  split; [reflexivity | discriminate].
Qed.

(** C6, amended: on every grid with at least one row ([R >= 1] rows of
    [C] cells), [isFull] returns, leaves the board as it is, and returns
    [True] exactly when the number of Occupied cells is [R * C], that is
    when no cell holds [""]. *)
Theorem isFull_iff_all_occupied (R C : nat) (board : grid) :
  is_grid R C board -> 1 <= R ->
  exists b,
    isFull board = (Ok b, board)
    /\ (b = true <-> occupied_count board = R * C)
    /\ (b = true <-> forall r c, In r board -> In c r -> c <> Empty).
Proof.
  intros Hg HR. destruct (isFull_grid Hg HR) as (b & Hb & Hiff).
  exists b. split; [assumption|].
  rewrite <- (all_occupied_nth Hg) in Hiff. split.
  - now rewrite (occupied_count_full Hg).
  - rewrite Hiff. split.
    + intros H r c Hr Hc ->.
      rewrite Forall_forall in H. specialize (H r Hr).
      rewrite Forall_forall in H. specialize (H Empty Hc). discriminate.
    + intros H. apply Forall_forall. intros r Hr.
      apply Forall_forall. intros c Hc.
      specialize (H r c Hr Hc). now destruct c.
Qed.

Lemma isFull_iff_all_occupied_witness :
  exists b,
    isFull full_board = (Ok b, full_board)
    /\ (b = true <-> occupied_count full_board = 2 * 2)
    /\ (b = true <-> forall r c, In r full_board -> In c r -> c <> Empty).
Proof.
  apply (@isFull_iff_all_occupied 2 2 full_board).
  - split; [reflexivity | repeat constructor].
  - lia.
Defined.

(** ** [addANewTwoToBoard] *)

Lemma fold_left_append {A B : Type} (F : B -> list A) (l : list B) (acc : list A) :
  fold_left (fun acc x => acc ++ F x) l acc = acc ++ flat_map F l.
Proof.
  revert acc. induction l as [|x l IH]; intros acc; simpl.
  - now rewrite app_nil_r.
  - now rewrite IH, app_assoc.
Qed.

(** The loops of [addANewTwoToBoard] collect [empty_positions]. *)
Lemma empty_cells_loop (R C : nat) (board : grid) :
  is_grid R C board ->
  fold_in (seq 0 R) (fun row empty_cells =>
    fold_in (seq 0 C) (fun col empty_cells =>
      c <- get_cell row col ;;
      if is_empty c
      then ret (empty_cells ++ [(row, col)])
      else ret empty_cells) empty_cells) [] board
  = (Ok (empty_positions R C board), board).
Proof.
  intros Hg.
  set (cellF := fun row col =>
         if is_empty (nth col (nth row board []) Empty)
         then [(row, col)] else @nil (nat * nat)).
  rewrite (fold_in_pure _ _
             (fun row acc => acc ++ flat_map (cellF row) (seq 0 C))).
  - now rewrite fold_left_append.
  - intros row acc Hrow. apply in_seq in Hrow.
    rewrite (fold_in_pure _ _ (fun col acc => acc ++ cellF row col)).
    + now rewrite fold_left_append.
    + intros col acc' Hcol. apply in_seq in Hcol. unfold bind.
      rewrite (get_cell_grid (i := row) (j := col) Hg) by lia.
      unfold cellF. destruct (is_empty _); [reflexivity|].
      now rewrite app_nil_r.
Qed.

Lemma In_empty_positions (R C : nat) (g : grid) (i j : nat) :
  In (i, j) (empty_positions R C g)
  <-> i < R /\ j < C /\ nth j (nth i g []) Empty = Empty.
Proof.
  unfold empty_positions. rewrite in_flat_map. split.
  - intros (row & Hrow & H). apply in_flat_map in H as (col & Hcol & H).
    apply in_seq in Hrow, Hcol.
    destruct (nth col (nth row g []) Empty) eqn:E; simpl in H;
      [|contradiction].
    destruct H as [H | []]. injection H as <- <-.
    repeat split; [lia | lia | assumption].
  - intros (Hi & Hj & E). exists i. split; [apply in_seq; lia|].
    apply in_flat_map. exists j. split; [apply in_seq; lia|].
    rewrite E. now left.
Qed.

Lemma random_choice_In {A : Type} (rnd : nat) (items : list A) (d : A) :
  items <> [] -> In (random_choice rnd items d) items.
Proof.
  intros H. unfold random_choice. apply nth_In.
  apply Nat.mod_upper_bound. destruct items; [congruence | discriminate].
Qed.

(** Every element of the list is the choice for some value of [rnd]. *)
Lemma random_choice_covers {A : Type} (items : list A) (d x : A) :
  In x items -> exists rnd, random_choice rnd items d = x.
Proof.
  intros H. apply (In_nth _ _ d) in H as (k & Hk & <-).
  exists k. unfold random_choice. now rewrite Nat.mod_small.
Qed.

Lemma set_cell_grid (R C : nat) (board : grid) (i j : nat) (c : cell) :
  is_grid R C board -> i < R -> j < C ->
  set_cell i j c board
  = (Ok tt, replace_nth board i (replace_nth (nth i board []) j c)).
Proof.
  intros Hg Hi Hj. pose proof Hg as [HR _].
  unfold set_cell, bind.
  rewrite get_row_ok with (r := nth i board [])
    by (apply nth_error_nth'; lia).
  rewrite (is_grid_row Hg Hi).
  apply Nat.ltb_lt in Hj. rewrite Hj.
  unfold set_row. rewrite <- HR in Hi.
  apply Nat.ltb_lt in Hi. now rewrite Hi.
Qed.

Lemma addANewTwoToBoard_grid (R C : nat) (board : grid) (rnd : nat) :
  is_grid R C board -> 1 <= R ->
  (empty_positions R C board = [] ->
   addANewTwoToBoard rnd board = (Ok tt, board))
  /\ (empty_positions R C board <> [] ->
      exists i j,
        i < R /\ j < C /\ nth j (nth i board []) Empty = Empty
        /\ addANewTwoToBoard rnd board
           = (Ok tt, replace_nth board i
                       (replace_nth (nth i board []) j (Num 2)))).
Proof.
  intros Hg HR. pose proof Hg as [Hlen _].
  destruct (get_first_row Hg HR) as [H0 HC].
  assert (Hadd : addANewTwoToBoard rnd board
                 = match empty_positions R C board with
                   | [] => (Ok tt, board)
                   | _ :: _ =>
                       set_cell
                         (fst (random_choice rnd (empty_positions R C board) (0, 0)))
                         (snd (random_choice rnd (empty_positions R C board) (0, 0)))
                         (Num 2) board
                   end).
  { unfold addANewTwoToBoard.
    unfold bind at 1. unfold get_board at 1. cbv iota beta.
    unfold bind at 1. rewrite H0, HC, Hlen. unfold range.
    unfold bind at 1. rewrite (empty_cells_loop Hg).
    destruct (empty_positions R C board) as [|p rest]; [reflexivity|].
    now destruct (random_choice rnd (p :: rest) (0, 0)). }
  rewrite Hadd. split.
  - intros ->. reflexivity.
  - intros Hne.
    pose proof (random_choice_In rnd (0, 0) Hne) as Hin.
    destruct (random_choice rnd (empty_positions R C board) (0, 0))
      as [i j].
    apply In_empty_positions in Hin as (Hi & Hj & Hcell).
    exists i, j. repeat split; try assumption.
    destruct (empty_positions R C board); [congruence|].
    now apply (set_cell_grid _ Hg).
Qed.


(** Cells of a board after one cell assignment. *)
Lemma cell_at_nth (R C : nat) (g : grid) (i j : nat) :
  is_grid R C g -> i < R -> j < C ->
  cell_at g (i, j) = Some (nth j (nth i g []) Empty).
Proof.
  intros Hg Hi Hj. pose proof Hg as [HR _]. unfold cell_at. cbn [fst snd].
  rewrite (nth_error_nth' g []) by lia.
  apply nth_error_nth'. now rewrite (is_grid_row Hg Hi).
Qed.

Lemma cell_at_replace_eq (g : grid) (i j : nat) (c : cell) :
  i < length g -> j < length (nth i g []) ->
  cell_at (replace_nth g i (replace_nth (nth i g []) j c)) (i, j) = Some c.
Proof.
  intros Hi Hj. unfold cell_at. cbn [fst snd].
  rewrite nth_error_replace_nth_eq by assumption.
  now apply nth_error_replace_nth_eq.
Qed.

Lemma cell_at_replace_ne (g : grid) (i j : nat) (c : cell) (q : nat * nat) :
  i < length g -> q <> (i, j) ->
  cell_at (replace_nth g i (replace_nth (nth i g []) j c)) q = cell_at g q.
Proof.
  intros Hi Hq. destruct q as [i' j']. unfold cell_at. cbn [fst snd].
  destruct (Nat.eq_dec i i') as [<- | Hii].
  - rewrite nth_error_replace_nth_eq by assumption.
    rewrite (nth_error_nth' g [] Hi).
    apply nth_error_replace_nth_ne. congruence.
  - now rewrite nth_error_replace_nth_ne.
Qed.

Lemma row_occupied_replace (r : row) (j : nat) (v : Z) :
  nth_error r j = Some Empty ->
  row_occupied (replace_nth r j (Num v)) = S (row_occupied r).
Proof.
  unfold row_occupied. revert j.
  induction r as [|c r IH]; intros [|j] H; simpl in *; try discriminate.
  - injection H as ->. reflexivity.
  - destruct (is_occupied c); simpl; now rewrite IH.
Qed.

Lemma occupied_count_replace (g : grid) (i : nat) (r r' : row) :
  nth_error g i = Some r ->
  occupied_count (replace_nth g i r') + row_occupied r
  = occupied_count g + row_occupied r'.
Proof.
  revert i. induction g as [|r0 g IH]; intros [|i] H; simpl in *;
    try discriminate.
  - injection H as ->. lia.
  - specialize (IH i H). lia.
Qed.

Lemma replace_cell_is_grid (R C : nat) (g : grid) (i j : nat) (c : cell) :
  is_grid R C g -> i < R ->
  is_grid R C (replace_nth g i (replace_nth (nth i g []) j c)).
Proof.
  intros Hg Hi. pose proof Hg as [HR HC]. split.
  - now rewrite replace_nth_length.
  - apply Forall_forall. intros r Hr.
    apply (In_nth _ _ []) in Hr as (k & Hk & <-).
    rewrite replace_nth_length in Hk.
    destruct (Nat.eq_dec i k) as [<- | Hik].
    + rewrite (nth_error_nth _ _ _
                 (nth_error_replace_nth_eq g _ Hk)).
      rewrite replace_nth_length. apply (is_grid_row Hg Hi).
    + assert (E : nth_error (replace_nth g i (replace_nth (nth i g []) j c)) k
                  = Some (nth k g []))
        by (rewrite nth_error_replace_nth_ne by assumption;
            now apply nth_error_nth').
      rewrite (nth_error_nth _ _ _ E). apply (is_grid_row Hg). lia.
Qed.

Lemma cell_at_Some (R C : nat) (g : grid) (i j : nat) (c : cell) :
  is_grid R C g -> cell_at g (i, j) = Some c ->
  i < R /\ j < C /\ nth j (nth i g []) Empty = c.
Proof.
  intros Hg H. pose proof Hg as [HR _]. unfold cell_at in H. cbn [fst snd] in H.
  destruct (nth_error g i) as [r|] eqn:Er; [|discriminate].
  assert (Hi : i < R) by (rewrite <- HR; apply nth_error_Some; congruence).
  assert (Hr : nth i g [] = r) by now apply nth_error_nth.
  assert (Hj : j < length r) by (apply nth_error_Some; congruence).
  rewrite <- Hr, (is_grid_row Hg Hi) in Hj.
  repeat split; try assumption.
  rewrite Hr. now apply nth_error_nth.
Qed.

Lemma empty_positions_of_cells (R C : nat) (g : grid) :
  is_grid R C g ->
  (empty_positions R C g = [] <-> forall pos, cell_at g pos <> Some Empty).
Proof.
  intros Hg. split.
  - intros H [i j] Hc.
    destruct (@cell_at_Some R C g i j Empty Hg Hc) as (Hi & Hj & Hcell).
    assert (Hin : In (i, j) (empty_positions R C g))
      by now apply In_empty_positions.
    rewrite H in Hin. contradiction.
  - intros H. destruct (empty_positions R C g) as [|[i j] rest] eqn:E;
      [reflexivity|].
    assert (Hin : In (i, j) (empty_positions R C g)) by (rewrite E; now left).
    apply In_empty_positions in Hin as (Hi & Hj & Hcell).
    exfalso. apply (H (i, j)).
    now rewrite (cell_at_nth Hg Hi Hj), Hcell.
Qed.

(** What [addANewTwoToBoard] does when the board has an Empty cell. *)
Lemma spawn_on_board_with_room (R C : nat) (board : grid) (rnd : nat) :
  is_grid R C board -> 1 <= R ->
  (exists pos, cell_at board pos = Some Empty) ->
  exists i j,
    i < R /\ j < C
    /\ cell_at board (i, j) = Some Empty
    /\ addANewTwoToBoard rnd board
       = (Ok tt, replace_nth board i (replace_nth (nth i board []) j (Num 2))).
Proof.
  intros Hg HR [pos Hpos].
  destruct (addANewTwoToBoard_grid rnd Hg HR) as [_ Hadd].
  destruct Hadd as (i & j & Hi & Hj & Hcell & Hadd).
  - intros Hnil. rewrite (empty_positions_of_cells Hg) in Hnil.
    now apply (Hnil pos).
  - exists i, j. repeat split; try assumption.
    now rewrite (cell_at_nth Hg Hi Hj), Hcell.
Qed.

(** C5, as stated for every grid state, fails on the board without rows,
    the value [board] has until [init] runs: no cell of it is Empty, yet
    [addANewTwoToBoard] is no no-op there, it raises [IndexError] at
    [board[0]]. *)
Lemma spawn_raises_without_rows :
  is_grid 0 0 initial_board
  /\ (forall pos, cell_at initial_board pos <> Some Empty)
  /\ addANewTwoToBoard 0 initial_board = (Raise IndexError, initial_board)
  /\ addANewTwoToBoard 0 initial_board <> (Ok tt, initial_board).
Proof.
  split; [split; [reflexivity | constructor]|].
  split; [intros [[|i] j]; discriminate|].
  split; [reflexivity | discriminate].
Qed.

(** C5, amended: on every grid with at least one row ([R >= 1] rows of
    [C] cells) and for every random choice: when no cell is Empty,
    [addANewTwoToBoard] returns and leaves the board unchanged; when some
    cell is Empty, it returns, the board has exactly one more Occupied
    cell, and a cell that was Empty holds 2. *)
Theorem spawn_full_or_one_more_two (R C : nat) (board : grid) (rnd : nat) :
  is_grid R C board -> 1 <= R ->
  ((forall pos, cell_at board pos <> Some Empty) ->
   addANewTwoToBoard rnd board = (Ok tt, board))
  /\ ((exists pos, cell_at board pos = Some Empty) ->
      exists board' pos,
        addANewTwoToBoard rnd board = (Ok tt, board')
        /\ occupied_count board' = occupied_count board + 1
        /\ cell_at board pos = Some Empty
        /\ cell_at board' pos = Some (Num 2)).
Proof.
  intros Hg HR. pose proof Hg as [Hlen _]. split.
  - intros Hfull. apply (addANewTwoToBoard_grid rnd Hg HR).
    now apply (empty_positions_of_cells Hg).
  - intros Hroom.
    destruct (spawn_on_board_with_room rnd Hg HR Hroom)
      as (i & j & Hi & Hj & Hcell & Hadd).
    exists (replace_nth board i (replace_nth (nth i board []) j (Num 2))), (i, j).
    repeat split; try assumption.
    + assert (Hrow : nth_error board i = Some (nth i board []))
        by (apply nth_error_nth'; lia).
      pose proof (occupied_count_replace board i
                    (replace_nth (nth i board []) j (Num 2)) Hrow) as Hcount.
      rewrite row_occupied_replace in Hcount; [lia|].
      unfold cell_at in Hcell. cbn [fst snd] in Hcell.
      now rewrite Hrow in Hcell.
    + apply cell_at_replace_eq; [lia|].
      now rewrite (is_grid_row Hg Hi).
Qed.

Lemma spawn_full_or_one_more_two_witness :
  addANewTwoToBoard 5 full_board = (Ok tt, full_board)
  /\ exists board' pos,
       addANewTwoToBoard 5 small_board = (Ok tt, board')
       /\ occupied_count board' = occupied_count small_board + 1
       /\ cell_at small_board pos = Some Empty
       /\ cell_at board' pos = Some (Num 2).
Proof.
  split.
  - apply (@spawn_full_or_one_more_two 2 2 full_board 5).
    + split; [reflexivity | repeat constructor].
    + lia.
    + intros [[|[|[|i]]] [|[|[|j]]]] H; vm_compute in H; discriminate H.
  - apply (@spawn_full_or_one_more_two 2 3 small_board 5).
    + split; [reflexivity | repeat constructor].
    + lia.
    + exists (0, 1). reflexivity.
Defined.

(** C10: on every grid of [R >= 1] rows of [C] cells with an Empty cell
    and for every random choice, [addANewTwoToBoard] changes the cell at
    one position, which was Empty, and every other position keeps its
    cell; in particular every Occupied cell keeps its value and its
    place, and the grid keeps its dimensions. *)
Theorem spawn_changes_one_empty_cell (R C : nat) (board : grid) (rnd : nat) :
  is_grid R C board -> 1 <= R ->
  (exists pos, cell_at board pos = Some Empty) ->
  exists board' pos,
    addANewTwoToBoard rnd board = (Ok tt, board')
    /\ is_grid R C board'
    /\ cell_at board pos = Some Empty
    /\ cell_at board' pos <> cell_at board pos
    /\ (forall q, q <> pos -> cell_at board' q = cell_at board q)
    /\ (forall q v, cell_at board q = Some (Num v) ->
                    cell_at board' q = Some (Num v)).
Proof.
  intros Hg HR Hroom. pose proof Hg as [Hlen _].
  destruct (spawn_on_board_with_room rnd Hg HR Hroom)
    as (i & j & Hi & Hj & Hcell & Hadd).
  exists (replace_nth board i (replace_nth (nth i board []) j (Num 2))), (i, j).
  assert (Hnew : cell_at (replace_nth board i
                            (replace_nth (nth i board []) j (Num 2))) (i, j)
                 = Some (Num 2)).
  { apply cell_at_replace_eq; [lia|]. now rewrite (is_grid_row Hg Hi). }
  assert (Hother : forall q, q <> (i, j) ->
            cell_at (replace_nth board i
                       (replace_nth (nth i board []) j (Num 2))) q
            = cell_at board q).
  { intros q Hq. apply cell_at_replace_ne; [lia | assumption]. }
  split; [assumption|].
  split; [now apply replace_cell_is_grid|].
  split; [assumption|].
  split; [rewrite Hnew, Hcell; discriminate|].
  split; [assumption|].
  intros q v Hq. rewrite Hother; [assumption|].
  intros ->. rewrite Hcell in Hq. discriminate.
Qed.

Lemma spawn_changes_one_empty_cell_witness :
  exists board' pos,
    addANewTwoToBoard 7 sample_board = (Ok tt, board')
    /\ is_grid 4 4 board'
    /\ cell_at sample_board pos = Some Empty
    /\ cell_at board' pos <> cell_at sample_board pos
    /\ (forall q, q <> pos -> cell_at board' q = cell_at sample_board q)
    /\ (forall q v, cell_at sample_board q = Some (Num v) ->
                    cell_at board' q = Some (Num v)).
Proof.
  apply (@spawn_changes_one_empty_cell 4 4 sample_board 7).
  - split; [reflexivity | repeat constructor].
  - lia.
  - exists (0, 3). reflexivity.
Defined.

(** ** [init] *)

(** The four rows [init] appends to the empty [board]. *)
Lemma init_rows :
  for_in (range 4) (fun _ =>
    append_row (fold_left (fun rowList _ => rowList ++ [Empty]) (range 4) []))
    initial_board
  = (Ok tt, repeat (repeat Empty 4) 4).
Proof. reflexivity. Qed.

(** C8: for every pair of distinct numbers that [random.sample(range(16), 2)]
    can draw, [init] returns on the board the module starts with and
    leaves a 4x4 board with exactly two Occupied cells, at the two distinct
    positions of the draw, each holding 2; [getCurrentScore] then returns
    4. *)
Theorem init_two_twos (n0 n1 : nat) :
  n0 < 16 -> n1 < 16 -> n0 <> n1 ->
  exists board,
    init (n0, n1) initial_board = (Ok tt, board)
    /\ is_grid 4 4 board
    /\ occupied_count board = 2
    /\ cell_at board (n0 / 4, n0 mod 4) = Some (Num 2)
    /\ cell_at board (n1 / 4, n1 mod 4) = Some (Num 2)
    /\ (n0 / 4, n0 mod 4) <> (n1 / 4, n1 mod 4)
    /\ getCurrentScore board = (Ok 4%Z, board).
Proof.
  intros H0 H1 Hne.
  assert (Hin0 : In n0 (seq 0 16)) by (apply in_seq; lia).
  assert (Hin1 : In n1 (seq 0 16)) by (apply in_seq; lia).
  clear H0 H1. cbn [seq In] in Hin0, Hin1.
  repeat (destruct Hin0 as [<- | Hin0]; [|]);
    try contradiction;
    repeat (destruct Hin1 as [<- | Hin1]; [|]);
    try contradiction; try congruence;
    (eexists; split; [cbv; reflexivity|];
     split; [split; [reflexivity | repeat constructor]|];
     split; [reflexivity|]; split; [reflexivity|];
     split; [reflexivity|]; split; [cbv; congruence | reflexivity]).
Qed.

Lemma init_two_twos_witness :
  exists board,
    init (3, 12) initial_board = (Ok tt, board)
    /\ is_grid 4 4 board
    /\ occupied_count board = 2
    /\ cell_at board (3 / 4, 3 mod 4) = Some (Num 2)
    /\ cell_at board (12 / 4, 12 mod 4) = Some (Num 2)
    /\ (3 / 4, 3 mod 4) <> (12 / 4, 12 mod 4)
    /\ getCurrentScore board = (Ok 4%Z, board).
Proof. apply (@init_two_twos 3 12); lia. Defined.

(** * Further properties of the engine *)

(** ** More on [slideLeftAndMergeRow] *)

Lemma forallb_is_empty_repeat (l : list cell) :
  forallb is_empty l = true -> l = repeat Empty (length l).
Proof.
  induction l as [|c l IH]; simpl; [reflexivity|].
  destruct c; simpl; [|discriminate]. intros H. now rewrite <- IH.
Qed.

Lemma forallb_is_empty_filter (l : list cell) :
  forallb is_empty l = true -> filter is_occupied l = [].
Proof.
  induction l as [|c l IH]; simpl; [reflexivity|].
  destruct c; simpl; [assumption | discriminate].
Qed.

Lemma packed_app_Empty (l : list cell) (k : nat) :
  Forall (fun c => is_occupied c = true) l ->
  packed (l ++ repeat Empty k) = true.
Proof.
  induction 1 as [|c l Hc Hl IH]; simpl.
  - destruct k; simpl; [reflexivity|].
    induction k as [|k IHk]; simpl; [reflexivity | exact IHk].
  - destruct c; [discriminate | exact IH].
Qed.

(** A packed row is its Occupied cells followed by Empty cells. *)
Lemma packed_spec (r : row) :
  packed r = true
  <-> r = filter is_occupied r ++ repeat Empty (length r - row_occupied r).
Proof.
  split.
  - unfold row_occupied. induction r as [|c r IH]; [reflexivity|].
    destruct c as [|v]; cbn [packed filter is_occupied is_empty negb length].
    + intros H. rewrite (forallb_is_empty_filter r H). simpl.
      f_equal. now apply forallb_is_empty_repeat.
    + intros H. cbn [app]. f_equal.
      replace (S (length r) - S (length (filter is_occupied r)))
        with (length r - length (filter is_occupied r)) by lia.
      now apply IH.
  - intros ->. apply packed_app_Empty, filter_occupied_all.
Qed.

Lemma slide_is_packed (r : row) : packed (slideLeftAndMergeRow r) = true.
Proof.
  rewrite slide_closed_form.
  apply packed_app_Empty, merge_pairs_all_occupied, filter_occupied_all.
Qed.

Lemma slide_without_merge (r : row) :
  mergeable_line r = false ->
  slideLeftAndMergeRow r
  = filter is_occupied r ++ repeat Empty (length r - row_occupied r).
Proof.
  unfold mergeable_line, row_occupied. intros H.
  rewrite slide_closed_form. now rewrite (merge_pairs_fixed _ H).
Qed.

Lemma slide_fixed_iff (r : row) :
  slideLeftAndMergeRow r = r
  <-> packed r = true /\ mergeable_line r = false.
Proof.
  split.
  - intros H. split.
    + rewrite <- H. apply slide_is_packed.
    + now apply slide_fixed_not_mergeable.
  - intros [Hp Hm]. rewrite (slide_without_merge _ Hm).
    symmetry. now apply packed_spec.
Qed.

Lemma merge_pairs_at_least_half (l : list cell) :
  length l <= 2 * length (merge_pairs l).
Proof.
  induction l as [| x | x y l E IH | x y l E IH] using merge_pairs_ind'.
  - simpl. lia.
  - simpl. lia.
  - rewrite merge_pairs_eq by exact E. simpl. lia.
  - rewrite merge_pairs_ne by exact E. simpl in *. lia.
Qed.

(** X1: for a row of any length, [slideLeftAndMergeRow] returns a row of
    the same length in which every Occupied cell comes before every Empty
    cell. *)
Theorem slide_same_length_and_packed (r : row) :
  length (slideLeftAndMergeRow r) = length r
  /\ packed (slideLeftAndMergeRow r) = true
  /\ exists k,
       slideLeftAndMergeRow r
       = filter is_occupied (slideLeftAndMergeRow r) ++ repeat Empty k.
Proof.
  split; [apply slide_length|]. split; [apply slide_is_packed|].
  eexists. apply packed_spec, slide_is_packed.
Qed.

(** X2: a cell merges with at most one other cell in one slide: the slid
    row keeps at least half of the Occupied cells (and never has more
    than the row had). *)
Theorem slide_keeps_at_least_half (r : row) :
  row_occupied r <= 2 * row_occupied (slideLeftAndMergeRow r)
  /\ row_occupied (slideLeftAndMergeRow r) <= row_occupied r.
Proof.
  split; [|apply slide_occupied].
  unfold row_occupied. rewrite slide_filter_occupied.
  apply merge_pairs_at_least_half.
Qed.

(** X3: when no two Occupied cells of the row that are neighbours once
    the Empty cells are dropped are equal, a slide only moves: the result
    is the Occupied cells of the row, in their order and with their
    values, followed by Empty cells. *)
Theorem slide_without_equal_neighbours_only_moves (r : row) :
  mergeable_line r = false ->
  slideLeftAndMergeRow r
  = filter is_occupied r ++ repeat Empty (length r - row_occupied r).
Proof. apply slide_without_merge. Qed.

Lemma slide_without_equal_neighbours_only_moves_witness :
  slideLeftAndMergeRow [Empty; Num 2; Empty; Num 4]
  = filter is_occupied [Empty; Num 2; Empty; Num 4]
    ++ repeat Empty (length [Empty; Num 2; Empty; Num 4]
                     - row_occupied [Empty; Num 2; Empty; Num 4]).
Proof.
  apply (@slide_without_equal_neighbours_only_moves [Empty; Num 2; Empty; Num 4]).
  reflexivity.
Defined.

(** X4: a slide leaves a row as it is exactly when the row is packed to
    the left and holds no two equal Occupied neighbours. *)
Theorem slide_changes_nothing_iff (r : row) :
  slideLeftAndMergeRow r = r
  <-> packed r = true /\ mergeable_line r = false.
Proof. apply slide_fixed_iff. Qed.

(** ** Tiles stay powers of two *)

Lemma is_tile_iff (v : Z) :
  is_tile (Num v) = true <-> exists k, (1 <= k)%Z /\ v = (2 ^ k)%Z.
Proof.
  cbn [is_tile]. rewrite andb_true_iff, Z.leb_le, Z.eqb_eq. split.
  - intros [H2 Hv]. exists (Z.log2 v). split; [|assumption].
    change 1%Z with (Z.log2 2). now apply Z.log2_le_mono.
  - intros (k & Hk & ->). split.
    + change 2%Z with (2 ^ 1)%Z at 1. apply Z.pow_le_mono_r; lia.
    + now rewrite Z.log2_pow2 by lia.
Qed.

Lemma is_tile_double (c : cell) :
  is_tile c = true -> is_tile (cell_double c) = true.
Proof.
  destruct c as [|v]; [reflexivity|]. cbn [cell_double].
  rewrite !is_tile_iff. intros (k & Hk & ->).
  exists (k + 1)%Z. split; [lia|].
  rewrite Z.pow_add_r by lia. reflexivity.
Qed.

Lemma merge_pairs_tiles (l : list cell) :
  forallb is_tile l = true -> forallb is_tile (merge_pairs l) = true.
Proof.
  induction l as [| x | x y l E IH | x y l E IH] using merge_pairs_ind';
    try (intros H; exact H).
  - rewrite merge_pairs_eq by exact E. cbn [forallb].
    rewrite !andb_true_iff. intros (Hx & _ & Hl).
    split; [now apply is_tile_double | now apply IH].
  - rewrite merge_pairs_ne by exact E.
    change (forallb is_tile (x :: y :: l))
      with (is_tile x && forallb is_tile (y :: l)).
    change (forallb is_tile (x :: merge_pairs (y :: l)))
      with (is_tile x && forallb is_tile (merge_pairs (y :: l))).
    rewrite !andb_true_iff. intros [Hx Hl]. split; [assumption | now apply IH].
Qed.

Lemma forallb_filter_occupied (P : cell -> bool) (l : list cell) :
  forallb P l = true -> forallb P (filter is_occupied l) = true.
Proof.
  induction l as [|c l IH]; simpl; [reflexivity|].
  rewrite andb_true_iff. intros [Hc Hl].
  destruct (is_occupied c); simpl; [rewrite Hc|]; now apply IH.
Qed.

Lemma slide_tiles (r : row) :
  forallb is_tile r = true -> forallb is_tile (slideLeftAndMergeRow r) = true.
Proof.
  intros H. rewrite slide_closed_form, forallb_app, andb_true_iff. split.
  - now apply merge_pairs_tiles, forallb_filter_occupied.
  - generalize (length r - length (merge_pairs (filter is_occupied r))).
    intros k. induction k as [|k IH]; simpl; [reflexivity | exact IH].
Qed.

Lemma forallb_rev {A : Type} (P : A -> bool) (l : list A) :
  forallb P (rev l) = forallb P l.
Proof.
  induction l as [|x l IH]; simpl; [reflexivity|].
  rewrite forallb_app, IH. simpl. rewrite andb_true_r. apply andb_comm.
Qed.

Lemma slide_right_tiles (r : row) :
  forallb is_tile r = true -> forallb is_tile (slide_right r) = true.
Proof.
  intros H. unfold slide_right. rewrite forallb_rev.
  apply slide_tiles. now rewrite forallb_rev.
Qed.

Lemma all_tiles_map (f : row -> row) (g : grid) :
  (forall r, forallb is_tile r = true -> forallb is_tile (f r) = true) ->
  all_tiles g = true -> all_tiles (map f g) = true.
Proof.
  intros Hf. unfold all_tiles. induction g as [|r g IH]; simpl; [reflexivity|].
  rewrite !andb_true_iff. intros [Hr Hg]. split; [now apply Hf | now apply IH].
Qed.

Lemma all_tiles_nth (R C : nat) (g : grid) (i j : nat) :
  is_grid R C g -> all_tiles g = true -> i < R -> j < C ->
  is_tile (nth j (nth i g []) Empty) = true.
Proof.
  intros Hg Ht Hi Hj. pose proof Hg as [HR _].
  unfold all_tiles in Ht. rewrite forallb_forall in Ht.
  assert (Hin : In (nth i g []) g) by (apply nth_In; lia).
  specialize (Ht _ Hin). rewrite forallb_forall in Ht.
  apply Ht, nth_In. now rewrite (is_grid_row Hg Hi).
Qed.

Lemma all_tiles_transpose (R C : nat) (g : grid) :
  is_grid R C g -> all_tiles g = true -> all_tiles (transpose C g) = true.
Proof.
  intros Hg Ht. pose proof Hg as [HR HC].
  unfold all_tiles, transpose. apply forallb_forall. intros r Hr.
  apply in_map_iff in Hr as (col & <- & Hcol). apply in_seq in Hcol.
  apply forallb_forall. intros c Hc.
  apply in_map_iff in Hc as (r0 & <- & Hr0).
  unfold all_tiles in Ht. rewrite forallb_forall in Ht.
  specialize (Ht _ Hr0). rewrite forallb_forall in Ht.
  apply Ht, nth_In. rewrite Forall_forall in HC. rewrite (HC _ Hr0). lia.
Qed.

Lemma moved_tiles (n : nat) (move : string) (g : grid) :
  is_grid n n g -> all_tiles g = true -> all_tiles (moved move g) = true.
Proof.
  intros Hg Ht. pose proof Hg as [Hlen _]. unfold moved. rewrite Hlen.
  pose proof (transpose_is_grid Hg) as Hgt.
  pose proof (all_tiles_transpose Hg Ht) as Htt.
  destruct (String.eqb move "A"); [|destruct (String.eqb move "D");
    [|destruct (String.eqb move "W")]].
  - now apply all_tiles_map; [apply slide_tiles|].
  - now apply all_tiles_map; [apply slide_right_tiles|].
  - apply (all_tiles_transpose (R := n)).
    + apply map_is_grid; [apply slide_length | assumption].
    + now apply all_tiles_map; [apply slide_tiles|].
  - apply (all_tiles_transpose (R := n)).
    + apply map_is_grid; [apply slide_right_length | assumption].
    + now apply all_tiles_map; [apply slide_right_tiles|].
Qed.

(** X5: a move keeps the board a board of the game: on a square grid
    whose cells are Empty or powers of two (2 at least), each of A, D, W, S
    returns and leaves a grid of the same dimensions whose cells are again
    Empty or powers of two. *)
Theorem move_keeps_grid_of_tiles (n : nat) (move : string) (g : grid) :
  is_grid n n g -> 1 <= n -> is_direction move -> all_tiles g = true ->
  exists g',
    updateTheBoardBasedOnTheUserMove move g = (Ok tt, g')
    /\ is_grid n n g'
    /\ all_tiles g' = true.
Proof.
  intros Hg Hn Hmove Ht. exists (moved move g). split; [|split].
  - now apply (update_square Hg).
  - now apply moved_is_grid.
  - now apply (moved_tiles move Hg).
Qed.

Lemma move_keeps_grid_of_tiles_witness :
  exists g',
    updateTheBoardBasedOnTheUserMove "W" sample_board = (Ok tt, g')
    /\ is_grid 4 4 g'
    /\ all_tiles g' = true.
Proof.
  apply (@move_keeps_grid_of_tiles 4 "W" sample_board).
  - split; [reflexivity | repeat constructor].
  - lia.
  - right; right; left; reflexivity.
  - reflexivity.
Defined.

(** ** Moves on boards that are not square *)

Lemma fold_in_app {I S : Type} (l1 l2 : list I) (body : I -> S -> M S) (s : S)
    (board : grid) :
  fold_in (l1 ++ l2) body s board
  = (s' <- fold_in l1 body s ;; fold_in l2 body s') board.
Proof.
  revert s board. induction l1 as [|i l1 IH]; intros s board; [reflexivity|].
  cbn [app fold_in]. unfold bind.
  destruct (body i s board) as [[s'|e] board']; [|reflexivity].
  rewrite IH. reflexivity.
Qed.

(** A loop over the first rows of a longer board. *)
Lemma for_in_rows_middle (f : row -> row) (body : nat -> M unit) :
  (forall i board r, nth_error board i = Some r ->
                     body i board = (Ok tt, replace_nth board i (f r))) ->
  forall mid pre post,
    for_in (seq (length pre) (length mid)) body (pre ++ mid ++ post)
    = (Ok tt, pre ++ map f mid ++ post).
Proof.
  intros Hbody. unfold for_in.
  induction mid as [|r mid IH]; intros pre post; [reflexivity|].
  cbn [length seq fold_in map app]. unfold bind.
  rewrite (Hbody _ _ r) by apply nth_error_middle.
  rewrite replace_nth_middle.
  replace (pre ++ f r :: mid ++ post) with ((pre ++ [f r]) ++ mid ++ post)
    by now rewrite <- app_assoc.
  replace (S (length pre)) with (length (pre ++ [f r]))
    by (rewrite length_app; simpl; lia).
  rewrite IH. now rewrite <- app_assoc.
Qed.

Lemma for_in_rows_prefix (f : row -> row) (body : nat -> M unit)
    (n : nat) (board : grid) :
  (forall i board r, nth_error board i = Some r ->
                     body i board = (Ok tt, replace_nth board i (f r))) ->
  n <= length board ->
  for_in (range n) body board
  = (Ok tt, map f (firstn n board) ++ skipn n board).
Proof.
  intros Hbody Hn.
  pose proof (for_in_rows_middle f body Hbody (firstn n board) []
                (skipn n board)) as H.
  rewrite length_firstn, Nat.min_l in H by assumption.
  cbn [length app] in H. now rewrite firstn_skipn in H.
Qed.

(** A loop that runs past the last row. *)
Lemma for_in_rows_overrun (f : row -> row) (body : nat -> M unit)
    (n : nat) (board : grid) :
  (forall i board r, nth_error board i = Some r ->
                     body i board = (Ok tt, replace_nth board i (f r))) ->
  (forall i board, nth_error board i = None ->
                   body i board = (Raise IndexError, board)) ->
  length board < n ->
  for_in (range n) body board = (Raise IndexError, map f board).
Proof.
  intros Hok Hfail Hn. unfold range, for_in.
  replace n with (length board + (n - length board)) by lia.
  rewrite seq_app, fold_in_app. unfold bind at 1.
  pose proof (for_in_rows f body board Hok) as Hrows.
  unfold for_in, range in Hrows. rewrite Hrows.
  destruct (n - length board) as [|k] eqn:E; [lia|].
  cbn [seq fold_in]. unfold bind.
  rewrite Hfail; [reflexivity|].
  apply nth_error_None. rewrite length_map. lia.
Qed.

Lemma slide_row_fails (board : grid) (i : nat) :
  nth_error board i = None -> slide_row i board = (Raise IndexError, board).
Proof.
  intros H. unfold slide_row, bind, get_row, index. now rewrite H.
Qed.

Lemma slide_right_row_fails (board : grid) (i : nat) :
  nth_error board i = None ->
  (reverse_row i ;; slide_row i ;; reverse_row i) board
  = (Raise IndexError, board).
Proof.
  intros H. unfold bind at 1. unfold reverse_row, bind, get_row, index.
  now rewrite H.
Qed.


(** X6: the moves A and D do not need a square or even a rectangular
    board: on every board with a first row, whatever the lengths of its
    rows, A returns with every row slid to the left and D with every row
    slid to the right (reversed, slid to the left, reversed). *)
Theorem move_left_right_on_any_board (board : grid) :
  board <> [] ->
  updateTheBoardBasedOnTheUserMove "A" board
  = (Ok tt, map slideLeftAndMergeRow board)
  /\ updateTheBoardBasedOnTheUserMove "D" board
     = (Ok tt, map slide_right board).
Proof.
  intros H. destruct board as [|r0 rest]; [congruence|]. split.
  - change (updateTheBoardBasedOnTheUserMove "A" (r0 :: rest))
      with (for_in (range (length (r0 :: rest)))
              (fun row_index => slide_row row_index) (r0 :: rest)).
    apply for_in_rows. intros i b r. apply slide_row_ok.
  - change (updateTheBoardBasedOnTheUserMove "D" (r0 :: rest))
      with (for_in (range (length (r0 :: rest)))
              (fun row_index =>
                 reverse_row row_index ;; slide_row row_index ;;
                 reverse_row row_index) (r0 :: rest)).
    apply for_in_rows. intros i b r. apply slide_right_row_ok.
Qed.

Lemma move_left_right_on_any_board_witness :
  updateTheBoardBasedOnTheUserMove "A" [[Num 2; Num 2]; [Empty; Num 4; Num 4]]
  = (Ok tt, map slideLeftAndMergeRow [[Num 2; Num 2]; [Empty; Num 4; Num 4]])
  /\ updateTheBoardBasedOnTheUserMove "D" [[Num 2; Num 2]; [Empty; Num 4; Num 4]]
     = (Ok tt, map slide_right [[Num 2; Num 2]; [Empty; Num 4; Num 4]]).
Proof.
  apply (@move_left_right_on_any_board [[Num 2; Num 2]; [Empty; Num 4; Num 4]]).
  discriminate.
Defined.

(** X7: the moves W and S take the number of rows before they transpose
    the board.  On a rectangular grid with more rows than columns the loop
    over the rows therefore runs past the last row of the transposed
    board: the move raises [IndexError] and leaves [board] transposed, its
    lines already slid, never transposed back. *)
Theorem move_up_down_on_tall_grid_raises (R C : nat) (g : grid) :
  is_grid R C g -> C < R ->
  updateTheBoardBasedOnTheUserMove "W" g
  = (Raise IndexError, map slideLeftAndMergeRow (transpose C g))
  /\ updateTheBoardBasedOnTheUserMove "S" g
     = (Raise IndexError, map slide_right (transpose C g)).
Proof.
  intros Hg HCR. pose proof Hg as [Hlen _].
  assert (HR : 1 <= R) by lia.
  assert (Hne : g <> []) by (intros ->; simpl in Hlen; lia).
  assert (Hlt : length (transpose C g) < length g).
  { destruct (transpose_is_grid Hg) as [-> _]. lia. }
  destruct g as [|r0 rest]; [congruence|]. split.
  - change (updateTheBoardBasedOnTheUserMove "W" (r0 :: rest))
      with ((transpose_in_place ;;
             for_in (range (length (r0 :: rest)))
               (fun row_index => slide_row row_index) ;;
             transpose_in_place) (r0 :: rest)).
    unfold bind at 1. rewrite (transpose_in_place_ok Hg HR).
    unfold bind at 1.
    rewrite (for_in_rows_overrun slideLeftAndMergeRow); try assumption.
    + reflexivity.
    + intros i b r. apply slide_row_ok.
    + intros i b. apply slide_row_fails.
  - change (updateTheBoardBasedOnTheUserMove "S" (r0 :: rest))
      with ((transpose_in_place ;;
             for_in (range (length (r0 :: rest)))
               (fun row_index =>
                  reverse_row row_index ;; slide_row row_index ;;
                  reverse_row row_index) ;;
             transpose_in_place) (r0 :: rest)).
    unfold bind at 1. rewrite (transpose_in_place_ok Hg HR).
    unfold bind at 1.
    rewrite (for_in_rows_overrun slide_right); try assumption.
    + reflexivity.
    + intros i b r. apply slide_right_row_ok.
    + intros i b. apply slide_right_row_fails.
Qed.

Lemma move_up_down_on_tall_grid_raises_witness :
  updateTheBoardBasedOnTheUserMove "W" tall_board
  = (Raise IndexError, map slideLeftAndMergeRow (transpose 2 tall_board))
  /\ updateTheBoardBasedOnTheUserMove "S" tall_board
     = (Raise IndexError, map slide_right (transpose 2 tall_board)).
Proof.
  apply (@move_up_down_on_tall_grid_raises 3 2 tall_board).
  - split; [reflexivity | repeat constructor].
  - lia.
Defined.

(** ** Cells of a transposed grid *)

Lemma cell_at_None (R C : nat) (g : grid) (i j : nat) :
  is_grid R C g -> R <= i \/ C <= j -> cell_at g (i, j) = None.
Proof.
  intros Hg H. pose proof Hg as [HR _]. unfold cell_at. cbn [fst snd].
  destruct (nth_error g i) as [r|] eqn:Er; [|reflexivity].
  assert (Hi : i < R) by (rewrite <- HR; apply nth_error_Some; congruence).
  destruct H as [H | H]; [lia|].
  apply nth_error_None.
  rewrite <- (nth_error_nth _ _ [] Er), (is_grid_row Hg Hi). exact H.
Qed.

Lemma transpose_nth (R C : nat) (g : grid) (i j : nat) :
  is_grid R C g -> i < R -> j < C ->
  nth i (nth j (transpose C g) []) Empty = nth j (nth i g []) Empty.
Proof.
  intros Hg Hi Hj. pose proof Hg as [HR _]. unfold transpose.
  rewrite (nth_indep _ [] (map (fun r => nth 0 r Empty) g))
    by now rewrite length_map, length_seq.
  rewrite (map_nth (fun col => map (fun r => nth col r Empty) g)).
  rewrite seq_nth by assumption. cbn [Nat.add].
  rewrite (nth_indep _ Empty (nth j [] Empty)) by (rewrite length_map; lia).
  now rewrite (map_nth (fun r => nth j r Empty)).
Qed.

Lemma cell_at_transpose (R C : nat) (g : grid) (i j : nat) :
  is_grid R C g -> cell_at (transpose C g) (j, i) = cell_at g (i, j).
Proof.
  intros Hg. pose proof (transpose_is_grid Hg) as Ht.
  destruct (Nat.lt_ge_cases i R) as [Hi | Hi];
    [destruct (Nat.lt_ge_cases j C) as [Hj | Hj]|].
  - rewrite (cell_at_nth Ht Hj Hi), (cell_at_nth Hg Hi Hj).
    now rewrite (transpose_nth Hg Hi Hj).
  - rewrite (cell_at_None (i := j) (j := i) Ht) by now left.
    now rewrite (cell_at_None (i := i) (j := j) Hg) by now right.
  - rewrite (cell_at_None (i := j) (j := i) Ht) by now right.
    now rewrite (cell_at_None (i := i) (j := j) Hg) by now left.
Qed.

(** X8: on a rectangular grid with at least one row, [transposeBoard]
    returns a grid with the dimensions exchanged whose cell at (column,
    row) is the cell of the argument at (row, column); positions outside
    the one grid are outside the other. *)
Theorem transposeBoard_swaps_positions (R C : nat) (g : grid) :
  is_grid R C g -> 1 <= R ->
  exists t,
    transposeBoard g = Ok t
    /\ is_grid C R t
    /\ forall i j, cell_at t (j, i) = cell_at g (i, j).
Proof.
  intros Hg HR. exists (transpose C g). split; [|split].
  - now apply transposeBoard_ok with (R := R).
  - now apply transpose_is_grid.
  - intros i j. now apply cell_at_transpose with (R := R).
Qed.

Lemma transposeBoard_swaps_positions_witness :
  exists t,
    transposeBoard small_board = Ok t
    /\ is_grid 3 2 t
    /\ forall i j, cell_at t (j, i) = cell_at small_board (i, j).
Proof.
  apply (@transposeBoard_swaps_positions 2 3 small_board).
  - split; [reflexivity | repeat constructor].
  - lia.
Defined.

(** ** W on a grid with more columns than rows *)

Lemma firstn_skipn_is_grid (R C n : nat) (f : row -> row) (g : grid) :
  (forall r, length (f r) = length r) ->
  is_grid R C g ->
  is_grid R C (map f (firstn n g) ++ skipn n g).
Proof.
  intros Hf [HR HC]. split.
  - rewrite length_app, length_map, <- length_app, firstn_skipn. exact HR.
  - rewrite <- (firstn_skipn n g) in HC. apply Forall_app in HC as [H1 H2].
    apply Forall_app. split; [|assumption].
    apply Forall_forall. intros r Hr.
    apply in_map_iff in Hr as (r0 & <- & Hr0).
    rewrite Forall_forall in H1. rewrite Hf. now apply H1.
Qed.

(** X9: on a rectangular grid with fewer rows than columns, W returns
    without an error, but its loop visits only as many columns as the
    grid has rows: the columns from index [R] on are left exactly as they
    were, whatever they could merge. *)
Theorem move_up_on_wide_grid_skips_columns (R C : nat) (g : grid) :
  is_grid R C g -> 1 <= R -> R < C ->
  exists g',
    updateTheBoardBasedOnTheUserMove "W" g = (Ok tt, g')
    /\ is_grid R C g'
    /\ forall i j, R <= j -> cell_at g' (i, j) = cell_at g (i, j).
Proof.
  intros Hg HR HRC. pose proof Hg as [Hlen _].
  pose proof (transpose_is_grid Hg) as Ht. pose proof Ht as [Hlent _].
  set (t := transpose C g) in *.
  set (t' := map slideLeftAndMergeRow (firstn R t) ++ skipn R t).
  assert (Ht' : is_grid C R t')
    by (apply firstn_skipn_is_grid; [apply slide_length | assumption]).
  exists (transpose R t'). split; [|split].
  - assert (Hne : g <> []) by (intros ->; simpl in Hlen; lia).
    destruct g as [|r0 rest]; [congruence|].
    change (updateTheBoardBasedOnTheUserMove "W" (r0 :: rest))
      with ((transpose_in_place ;;
             for_in (range (length (r0 :: rest)))
               (fun row_index => slide_row row_index) ;;
             transpose_in_place) (r0 :: rest)).
    unfold bind at 1. rewrite (transpose_in_place_ok Hg HR). fold t.
    unfold bind at 1. rewrite Hlen.
    rewrite (for_in_rows_prefix slideLeftAndMergeRow)
      by (try lia; intros i b r; apply slide_row_ok).
    fold t'. apply (transpose_in_place_ok Ht'). lia.
  - now apply transpose_is_grid.
  - intros i j Hj.
    rewrite (@cell_at_transpose C R t' j i Ht').
    rewrite <- (@cell_at_transpose R C g i j Hg). fold t.
    unfold cell_at, t'. cbn [fst snd].
    assert (HlenF : length (map slideLeftAndMergeRow (firstn R t)) = R)
      by (rewrite length_map, length_firstn; lia).
    rewrite nth_error_app2 by lia. rewrite HlenF.
    rewrite nth_error_skipn.
    now replace (R + (j - R)) with j by lia.
Qed.

Lemma move_up_on_wide_grid_skips_columns_witness :
  exists g',
    updateTheBoardBasedOnTheUserMove "W" wide_board = (Ok tt, g')
    /\ is_grid 2 3 g'
    /\ forall i j, 2 <= j -> cell_at g' (i, j) = cell_at wide_board (i, j).
Proof.
  apply (@move_up_on_wide_grid_skips_columns 2 3 wide_board).
  - split; [reflexivity | repeat constructor].
  - lia.
  - lia.
Defined.

(** ** Lines after a move, and moves that change nothing *)

Lemma lines_columns (n : nat) (move : string) (g : grid) :
  is_grid n n g -> 1 <= n -> move = "W"%string \/ move = "S"%string ->
  lines move g = transpose n g.
Proof.
  intros Hg Hn Hmove. unfold lines.
  rewrite (is_grid_row (i := 0) Hg) by lia.
  now destruct Hmove as [-> | ->].
Qed.

Lemma map_fixed_iff (f : row -> row) (P : row -> bool) (g : grid) :
  (forall r, f r = r <-> P r = true) ->
  map f g = g <-> forallb P g = true.
Proof.
  intros Hf. induction g as [|r g IH]; [now split|].
  cbn [map forallb]. rewrite andb_true_iff, <- IH, <- Hf. split.
  - intros H. injection H as H1 H2. now split.
  - intros [H1 H2]. now rewrite H1, H2.
Qed.

Lemma slide_fixed_settled (r : row) :
  slideLeftAndMergeRow r = r
  <-> packed r && negb (mergeable_line r) = true.
Proof.
  rewrite slide_fixed_iff, andb_true_iff, negb_true_iff. reflexivity.
Qed.

Lemma slide_right_fixed_settled (r : row) :
  slide_right r = r
  <-> packed (rev r) && negb (mergeable_line r) = true.
Proof.
  rewrite <- (mergeable_line_rev r), <- slide_fixed_settled.
  unfold slide_right. split.
  - intros H. rewrite <- H at 2. now rewrite rev_involutive.
  - intros ->. apply rev_involutive.
Qed.

Lemma columns_fixed_iff (n : nat) (f : row -> row) (P : row -> bool) (g : grid) :
  (forall r, length (f r) = length r) ->
  (forall r, f r = r <-> P r = true) ->
  is_grid n n g ->
  transpose n (map f (transpose n g)) = g
  <-> forallb P (transpose n g) = true.
Proof.
  intros Hlen Hf Hg. rewrite <- (map_fixed_iff f P (transpose n g) Hf).
  pose proof (transpose_is_grid Hg) as Ht. split.
  - intros H. rewrite <- H at 2.
    symmetry. apply transpose_involutive with (R := n).
    now apply map_is_grid.
  - intros ->. now apply transpose_involutive.
Qed.

Lemma moved_fixed_iff (n : nat) (move : string) (g : grid) :
  is_grid n n g -> 1 <= n -> is_direction move ->
  moved move g = g <-> settled move g = true.
Proof.
  intros Hg Hn Hmove. pose proof Hg as [Hlen _].
  unfold settled.
  destruct Hmove as [-> | [-> | [-> | ->]]].
  - apply (map_fixed_iff slideLeftAndMergeRow _ g slide_fixed_settled).
  - apply (map_fixed_iff slide_right _ g slide_right_fixed_settled).
  - rewrite (lines_columns Hg Hn) by now left.
    unfold moved. rewrite Hlen.
    apply (columns_fixed_iff slideLeftAndMergeRow _ slide_length
             slide_fixed_settled Hg).
  - rewrite (lines_columns Hg Hn) by now right.
    unfold moved. rewrite Hlen.
    apply (columns_fixed_iff slide_right _ slide_right_length
             slide_right_fixed_settled Hg).
Qed.

Lemma moved_lines_packed (n : nat) (move : string) (g : grid) :
  is_grid n n g -> 1 <= n -> is_direction move ->
  forallb (fun r => packed (from_edge move r)) (lines move (moved move g))
  = true.
Proof.
  intros Hg Hn Hmove. pose proof Hg as [Hlen _].
  pose proof (transpose_is_grid Hg) as Ht.
  apply forallb_forall. intros r Hr.
  destruct Hmove as [-> | [-> | [-> | ->]]].
  - apply in_map_iff in Hr as (r0 & <- & _). apply slide_is_packed.
  - apply in_map_iff in Hr as (r0 & <- & _).
    unfold from_edge, slide_right. cbn [String.eqb Ascii.eqb Bool.eqb orb].
    rewrite rev_involutive. apply slide_is_packed.
  - rewrite (lines_columns (moved_is_grid "W" Hg) Hn) in Hr by now left.
    unfold moved in Hr. rewrite Hlen in Hr.
    cbn [String.eqb Ascii.eqb Bool.eqb] in Hr.
    rewrite (transpose_involutive (R := n)) in Hr
      by (apply map_is_grid; [apply slide_length | assumption]).
    apply in_map_iff in Hr as (r0 & <- & _). apply slide_is_packed.
  - rewrite (lines_columns (moved_is_grid "S" Hg) Hn) in Hr by now right.
    unfold moved in Hr. rewrite Hlen in Hr.
    cbn [String.eqb Ascii.eqb Bool.eqb] in Hr.
    rewrite (transpose_involutive (R := n)) in Hr
      by (apply map_is_grid; [apply slide_right_length | assumption]).
    apply in_map_iff in Hr as (r0 & <- & _).
    unfold from_edge, slide_right. cbn [String.eqb Ascii.eqb Bool.eqb orb].
    rewrite rev_involutive. apply slide_is_packed.
Qed.

(** X10: after each of the moves A, D, W, S on a square grid, every line
    along the move (a row for A and D, a column for W and S) is packed
    against the edge the move slides to: read from that edge, no Occupied
    cell comes after an Empty cell. *)
Theorem move_packs_every_line (n : nat) (move : string) (g : grid) :
  is_grid n n g -> 1 <= n -> is_direction move ->
  exists g',
    updateTheBoardBasedOnTheUserMove move g = (Ok tt, g')
    /\ forall r, In r (lines move g') -> packed (from_edge move r) = true.
Proof.
  intros Hg Hn Hmove. exists (moved move g). split.
  - now apply (update_square Hg).
  - intros r Hr.
    pose proof (moved_lines_packed Hg Hn Hmove) as H.
    rewrite forallb_forall in H. now apply H.
Qed.

Lemma move_packs_every_line_witness :
  exists g',
    updateTheBoardBasedOnTheUserMove "S" sample_board = (Ok tt, g')
    /\ forall r, In r (lines "S" g') -> packed (from_edge "S" r) = true.
Proof.
  apply (@move_packs_every_line 4 "S" sample_board).
  - split; [reflexivity | repeat constructor].
  - lia.
  - right; right; right; reflexivity.
Defined.

(** X11: on a square grid a move A, D, W or S leaves the board exactly as
    it was if and only if every line along the move is already packed
    against the edge and holds no two equal Occupied neighbours. *)
Theorem move_changes_nothing_iff_settled (n : nat) (move : string) (g : grid) :
  is_grid n n g -> 1 <= n -> is_direction move ->
  updateTheBoardBasedOnTheUserMove move g = (Ok tt, g)
  <-> settled move g = true.
Proof.
  intros Hg Hn Hmove.
  rewrite (update_square Hg Hn Hmove), <- (moved_fixed_iff Hg Hn Hmove).
  split; [now intros [= ->] | now intros ->].
Qed.

Lemma move_changes_nothing_iff_settled_witness :
  updateTheBoardBasedOnTheUserMove "A" full_board = (Ok tt, full_board)
  <-> settled "A" full_board = true.
Proof.
  apply (@move_changes_nothing_iff_settled 2 "A" full_board).
  - split; [reflexivity | repeat constructor].
  - lia.
  - left; reflexivity.
Defined.

(** ** [transposeBoard] on boards that are not rectangular *)

Lemma append_each_raise {A : Type} (f : nat -> result A) (indices : list nat)
    (acc : list A) :
  (forall i, In i indices -> (exists x, f i = Ok x) \/ f i = Raise IndexError) ->
  (exists i, In i indices /\ f i = Raise IndexError) ->
  append_each f indices acc = Raise IndexError.
Proof.
  revert acc. induction indices as [|i rest IH]; intros acc Hall (k & Hk & Hf).
  - contradiction.
  - cbn [append_each].
    destruct (Hall i (or_introl eq_refl)) as [[x Hx] | Hx]; rewrite Hx;
      [|reflexivity].
    apply IH.
    + intros j Hj. apply Hall. now right.
    + destruct Hk as [<- | Hk]; [congruence|]. now exists k.
Qed.

Lemma transpose_column_ok (g : grid) (col : nat) :
  Forall (fun r => col < length r) g ->
  append_each
    (fun row => match index g row with
                | Raise e => Raise e
                | Ok r => index r col
                end)
    (range (length g)) []
  = Ok (map (fun r => nth col r Empty) g).
Proof.
  intros Hg. unfold range.
  rewrite (append_each_ok _ (fun row => nth col (nth row g []) Empty)).
  - cbn [app]. f_equal.
    rewrite <- (map_map (fun row => nth row g []) (fun r => nth col r Empty)).
    now rewrite map_nth_seq.
  - intros row Hrow. apply in_seq in Hrow.
    rewrite (index_in_range g []) by lia.
    apply index_in_range.
    rewrite Forall_forall in Hg. apply Hg, nth_In. lia.
Qed.

Lemma transpose_column_raise (g : grid) (col : nat) :
  Exists (fun r => length r <= col) g ->
  append_each
    (fun row => match index g row with
                | Raise e => Raise e
                | Ok r => index r col
                end)
    (range (length g)) []
  = Raise IndexError.
Proof.
  intros Hg. unfold range. apply append_each_raise.
  - intros row Hrow. apply in_seq in Hrow.
    rewrite (index_in_range g []) by lia.
    unfold index. destruct (nth_error (nth row g []) col); eauto.
  - apply Exists_exists in Hg as (r & Hr & Hlen).
    apply (In_nth _ _ []) in Hr as (row & Hrow & <-).
    exists row. split; [apply in_seq; lia|].
    rewrite (index_in_range g []) by lia.
    unfold index. apply nth_error_None in Hlen. now rewrite Hlen.
Qed.

(** X12: when [transposeBoard] raises.  With no row it raises
    [IndexError]; with a first row of [C] cells it raises [IndexError] as
    soon as some row has fewer than [C] cells, and otherwise returns the
    first [C] columns as rows, cells beyond column [C] being dropped. *)
Theorem transposeBoard_raises_iff_short_row (first_row : row) (rest : grid) :
  transposeBoard [] = Raise IndexError
  /\ (Forall (fun r => length first_row <= length r) rest ->
      transposeBoard (first_row :: rest)
      = Ok (transpose (length first_row) (first_row :: rest)))
  /\ (Exists (fun r => length r < length first_row) rest ->
      transposeBoard (first_row :: rest) = Raise IndexError).
Proof.
  split; [reflexivity|]. set (g := first_row :: rest).
  assert (Hunfold : transposeBoard g
            = append_each
                (fun col =>
                   append_each
                     (fun row => match index g row with
                                 | Raise e => Raise e
                                 | Ok r => index r col
                                 end)
                     (range (length g)) [])
                (range (length first_row)) []) by reflexivity.
  rewrite Hunfold. split.
  - intros Hrest. unfold range at 1.
    rewrite (append_each_ok _ (fun col => map (fun r => nth col r Empty) g));
      [reflexivity|].
    intros col Hcol. apply in_seq in Hcol.
    apply transpose_column_ok. constructor; [lia|].
    eapply Forall_impl; [|exact Hrest]. cbn beta. intros r Hr. lia.
  - intros Hshort. unfold range at 1. apply append_each_raise.
    + intros col Hcol.
      destruct (Forall_Exists_dec (fun r => col < length r)
                  (fun r => lt_dec col (length r)) g) as [Hall | Hex].
      * left. eexists. now apply transpose_column_ok.
      * right. apply transpose_column_raise.
        eapply Exists_impl; [|exact Hex]. cbn beta. intros r Hr. lia.
    + apply Exists_exists in Hshort as (r & Hr & Hlen).
      exists (length r). split; [apply in_seq; lia|].
      apply transpose_column_raise. apply Exists_exists.
      exists r. split; [now right | lia].
Qed.

Lemma transposeBoard_raises_iff_short_row_witness :
  transposeBoard [] = Raise IndexError
  /\ transposeBoard [[Num 2; Num 4]; [Num 8; Empty; Num 2]]
     = Ok (transpose 2 [[Num 2; Num 4]; [Num 8; Empty; Num 2]])
  /\ transposeBoard ragged_board = Raise IndexError.
Proof.
  split; [reflexivity|]. split.
  - apply (@transposeBoard_raises_iff_short_row
             [Num 2; Num 4] [[Num 8; Empty; Num 2]]).
    repeat constructor.
  - apply (@transposeBoard_raises_iff_short_row
             [Num 2; Num 4; Empty] [[Num 8; Empty]]).
    left. simpl. lia.
Defined.

(** ** Functions that only read [board] *)

Lemma read_only_ret {A : Type} (a : A) : read_only (ret a).
Proof. intros board. reflexivity. Qed.

Lemma read_only_bind {A B : Type} (m : M A) (k : A -> M B) :
  read_only m -> (forall a, read_only (k a)) -> read_only (bind m k).
Proof.
  intros Hm Hk board. unfold bind.
  specialize (Hm board). destruct (m board) as [[a|e] board']; simpl in Hm;
    subst board'; [apply Hk | reflexivity].
Qed.

Lemma read_only_get_board : read_only get_board.
Proof. intros board. reflexivity. Qed.

Lemma read_only_get_row (i : nat) : read_only (get_row i).
Proof. intros board. reflexivity. Qed.

Lemma read_only_get_cell (i j : nat) : read_only (get_cell i j).
Proof.
  apply read_only_bind; [apply read_only_get_row|].
  intros r board. reflexivity.
Qed.

Lemma read_only_fold_in {I S : Type} (indices : list I) (body : I -> S -> M S) :
  (forall i s, read_only (body i s)) ->
  forall s, read_only (fold_in indices body s).
Proof.
  intros Hbody. induction indices as [|i rest IH]; intros s.
  - apply read_only_ret.
  - cbn [fold_in]. apply read_only_bind; [apply Hbody | apply IH].
Qed.

Lemma read_only_for_in_return {I R : Type} (indices : list I)
    (body : I -> M (option R)) :
  (forall i, read_only (body i)) ->
  read_only (for_in_return indices body).
Proof.
  intros Hbody. induction indices as [|i rest IH].
  - apply read_only_ret.
  - cbn [for_in_return]. apply read_only_bind; [apply Hbody|].
    intros [v|]; [apply read_only_ret | apply IH].
Qed.

(** X13: [isFull] and [getCurrentScore] never change [board]: on every
    board, rectangular or not, and whether they return or raise, the board
    after the call is the board before it. *)
Theorem isFull_and_getCurrentScore_only_read :
  read_only isFull /\ read_only getCurrentScore.
Proof.
  split.
  - unfold isFull.
    apply read_only_bind; [apply read_only_get_board | intros board].
    apply read_only_bind; [apply read_only_get_row | intros first_row].
    apply read_only_bind.
    + apply read_only_for_in_return. intros row.
      apply read_only_for_in_return. intros col.
      apply read_only_bind; [apply read_only_get_cell | intros c].
      destruct (is_empty c); apply read_only_ret.
    + intros [v|]; apply read_only_ret.
  - unfold getCurrentScore.
    apply read_only_bind; [apply read_only_get_board | intros board].
    apply read_only_bind; [apply read_only_get_row | intros first_row].
    apply read_only_fold_in. intros row s.
    apply read_only_fold_in. intros col s'.
    apply read_only_bind; [apply read_only_get_cell | intros c].
    destruct (is_occupied c); apply read_only_ret.
Qed.

(** X14: before [init] has run, [board] is the empty list, and every
    function of the engine that looks at it raises [IndexError] at
    [board[0]] and leaves it empty: [isFull], [getCurrentScore],
    [addANewTwoToBoard] for every random choice, and
    [updateTheBoardBasedOnTheUserMove] for every move, valid or not. *)
Theorem engine_raises_before_init (rnd : nat) (move : string) :
  isFull initial_board = (Raise IndexError, initial_board)
  /\ getCurrentScore initial_board = (Raise IndexError, initial_board)
  /\ addANewTwoToBoard rnd initial_board = (Raise IndexError, initial_board)
  /\ updateTheBoardBasedOnTheUserMove move initial_board
     = (Raise IndexError, initial_board).
Proof. repeat split; reflexivity. Qed.

(** ** More on [addANewTwoToBoard] *)

(** With an Empty cell on the board, the cell assigned is the element of
    [empty_cells] that [random.choice] picks. *)
Lemma addANewTwoToBoard_choice (R C : nat) (board : grid) (rnd : nat) :
  is_grid R C board -> 1 <= R -> empty_positions R C board <> [] ->
  addANewTwoToBoard rnd board
  = set_cell (fst (random_choice rnd (empty_positions R C board) (0, 0)))
             (snd (random_choice rnd (empty_positions R C board) (0, 0)))
             (Num 2) board.
Proof.
  intros Hg HR Hne. pose proof Hg as [Hlen _].
  destruct (get_first_row Hg HR) as [H0 HC].
  unfold addANewTwoToBoard.
  unfold bind at 1. unfold get_board at 1. cbv iota beta.
  unfold bind at 1. rewrite H0, HC, Hlen. unfold range.
  unfold bind at 1. rewrite (empty_cells_loop Hg).
  destruct (empty_positions R C board) as [|p rest]; [congruence|].
  now destruct (random_choice rnd (p :: rest) (0, 0)).
Qed.

Lemma row_sum_replace (weight : cell -> Z) (r : row) (j : nat) (old c : cell) :
  nth_error r j = Some old ->
  (row_sum weight (replace_nth r j c) + weight old
   = row_sum weight r + weight c)%Z.
Proof.
  revert j. induction r as [|c0 r IH]; intros [|j] H; simpl in *;
    try discriminate.
  - injection H as ->. lia.
  - specialize (IH j H). lia.
Qed.

Lemma grid_sum_replace (weight : cell -> Z) (g : grid) (i : nat) (r r' : row) :
  nth_error g i = Some r ->
  (grid_sum weight (replace_nth g i r') + row_sum weight r
   = grid_sum weight g + row_sum weight r')%Z.
Proof.
  revert i. induction g as [|r0 g IH]; intros [|i] H; simpl in *;
    try discriminate.
  - injection H as ->. lia.
  - specialize (IH i H). lia.
Qed.

Lemma forallb_replace_nth {A : Type} (P : A -> bool) (l : list A) (i : nat) (x : A) :
  forallb P l = true -> P x = true -> forallb P (replace_nth l i x) = true.
Proof.
  revert i. induction l as [|y l IH]; intros [|i] Hl Hx; simpl in *;
    try reflexivity; apply andb_true_iff in Hl as [Hy Hl];
    apply andb_true_iff; split; auto.
Qed.

Lemma forallb_nth {A : Type} (P : A -> bool) (l : list A) (i : nat) (d : A) :
  forallb P l = true -> P d = true -> P (nth i l d) = true.
Proof.
  intros Hl Hd. destruct (Nat.lt_ge_cases i (length l)) as [Hi | Hi].
  - rewrite forallb_forall in Hl. now apply Hl, nth_In.
  - now rewrite nth_overflow.
Qed.

Lemma spawned_board_score (R C : nat) (board : grid) (i j : nat) :
  is_grid R C board -> i < R -> cell_at board (i, j) = Some Empty ->
  grid_score (replace_nth board i (replace_nth (nth i board []) j (Num 2)))
  = (grid_score board + 2)%Z.
Proof.
  intros Hg Hi Hcell. pose proof Hg as [Hlen _].
  assert (Hrow : nth_error board i = Some (nth i board []))
    by (apply nth_error_nth'; lia).
  unfold cell_at in Hcell. cbn [fst snd] in Hcell. rewrite Hrow in Hcell.
  pose proof (grid_sum_replace cell_value board i
                (replace_nth (nth i board []) j (Num 2)) Hrow) as Hg'.
  pose proof (row_sum_replace cell_value (nth i board []) j (Num 2) Hcell)
    as Hr.
  unfold grid_score. cbn [cell_value] in Hr. lia.
Qed.

Lemma spawned_board_tiles (board : grid) (i j : nat) :
  all_tiles board = true ->
  all_tiles (replace_nth board i (replace_nth (nth i board []) j (Num 2)))
  = true.
Proof.
  intros Ht. unfold all_tiles in *.
  apply forallb_replace_nth; [assumption|].
  apply forallb_replace_nth; [|reflexivity].
  now apply (forallb_nth (forallb is_tile)).
Qed.

(** X15: when the board has an Empty cell, [addANewTwoToBoard] raises the
    score that [getCurrentScore] returns by exactly 2, for every random
    choice, and a board whose cells are Empty or powers of two stays such
    a board. *)
Theorem spawn_adds_two_to_score (R C : nat) (board : grid) (rnd : nat) :
  is_grid R C board -> 1 <= R ->
  (exists pos, cell_at board pos = Some Empty) ->
  exists board' s,
    getCurrentScore board = (Ok s, board)
    /\ addANewTwoToBoard rnd board = (Ok tt, board')
    /\ getCurrentScore board' = (Ok (s + 2)%Z, board')
    /\ (all_tiles board = true -> all_tiles board' = true).
Proof.
  intros Hg HR Hroom.
  destruct (spawn_on_board_with_room rnd Hg HR Hroom)
    as (i & j & Hi & Hj & Hcell & Hadd).
  exists (replace_nth board i (replace_nth (nth i board []) j (Num 2))),
         (grid_score board).
  split; [now apply (getCurrentScore_grid Hg)|].
  split; [assumption|]. split.
  - rewrite <- (@spawned_board_score R C board i j Hg Hi Hcell).
    apply (getCurrentScore_grid (R := R) (C := C)); [|assumption].
    now apply replace_cell_is_grid.
  - apply spawned_board_tiles.
Qed.

Lemma spawn_adds_two_to_score_witness :
  exists board' s,
    getCurrentScore sample_board = (Ok s, sample_board)
    /\ addANewTwoToBoard 3 sample_board = (Ok tt, board')
    /\ getCurrentScore board' = (Ok (s + 2)%Z, board')
    /\ (all_tiles sample_board = true -> all_tiles board' = true).
Proof.
  apply (@spawn_adds_two_to_score 4 4 sample_board 3).
  - split; [reflexivity | repeat constructor].
  - lia.
  - exists (0, 3). reflexivity.
Defined.

(** X16: every Empty cell can receive the new tile: for each position
    that holds an Empty cell there is an outcome of [random.choice] for
    which [addANewTwoToBoard] puts the 2 at that position. *)
Theorem spawn_can_reach_every_empty_cell (R C : nat) (board : grid)
    (pos : nat * nat) :
  is_grid R C board -> 1 <= R -> cell_at board pos = Some Empty ->
  exists rnd board',
    addANewTwoToBoard rnd board = (Ok tt, board')
    /\ cell_at board' pos = Some (Num 2).
Proof.
  intros Hg HR Hcell. pose proof Hg as [Hlen _]. destruct pos as [i j].
  destruct (@cell_at_Some R C board i j Empty Hg Hcell) as (Hi & Hj & Hnth).
  assert (Hin : In (i, j) (empty_positions R C board))
    by now apply In_empty_positions.
  destruct (random_choice_covers _ (0, 0) _ Hin) as [rnd Hrnd].
  exists rnd, (replace_nth board i (replace_nth (nth i board []) j (Num 2))).
  split.
  - rewrite (addANewTwoToBoard_choice rnd Hg HR)
      by (intros E; rewrite E in Hin; contradiction).
    rewrite Hrnd. cbn [fst snd]. now apply (set_cell_grid _ Hg).
  - apply cell_at_replace_eq; [lia|]. now rewrite (is_grid_row Hg Hi).
Qed.

Lemma spawn_can_reach_every_empty_cell_witness :
  exists rnd board',
    addANewTwoToBoard rnd sample_board = (Ok tt, board')
    /\ cell_at board' (2, 2) = Some (Num 2).
Proof.
  apply (@spawn_can_reach_every_empty_cell 4 4 sample_board (2, 2)).
  - split; [reflexivity | repeat constructor].
  - lia.
  - reflexivity.
Defined.

(** ** [init] on a board that already has rows *)

Lemma init_rows_appended (board : grid) :
  for_in (range 4) (fun _ =>
    append_row (fold_left (fun rowList _ => rowList ++ [Empty]) (range 4) []))
    board
  = (Ok tt, board ++ repeat (repeat Empty 4) 4).
Proof.
  unfold for_in, range. cbn. unfold bind, append_row, ret. cbn.
  now rewrite <- !app_assoc.
Qed.

Lemma set_cell_before_rows (R C : nat) (board extra : grid) (i j : nat) (c : cell) :
  is_grid R C board -> i < R -> j < C ->
  set_cell i j c (board ++ extra)
  = (Ok tt, replace_nth board i (replace_nth (nth i board []) j c) ++ extra).
Proof.
  intros Hg Hi Hj. pose proof Hg as [HR _].
  assert (Hrow : nth_error (board ++ extra) i = Some (nth i board [])).
  { rewrite nth_error_app1 by lia. apply nth_error_nth'. lia. }
  unfold set_cell, bind. rewrite (get_row_ok _ _ Hrow).
  rewrite (is_grid_row Hg Hi).
  apply Nat.ltb_lt in Hj. rewrite Hj. unfold set_row.
  assert (Hi' : i < length (board ++ extra)) by (rewrite length_app; lia).
  apply Nat.ltb_lt in Hi'. rewrite Hi'. f_equal.
  clear - HR Hi. subst R. revert i Hi.
  induction board as [|r0 board IH]; intros [|i] Hi; simpl in *; try lia.
  - reflexivity.
  - f_equal. apply IH. lia.
Qed.

(** X17: [init] does not reset [board], it appends to it.  Called on a
    board that already has four or more rows of four cells, it returns
    with four Empty rows added at the end and with the two 2s written
    into the old rows, at the positions of the draw; every other cell of
    the old rows keeps its content. *)
Theorem init_again_appends_rows (R : nat) (board : grid) (n0 n1 : nat) :
  is_grid R 4 board -> 4 <= R -> n0 < 16 -> n1 < 16 ->
  exists old_rows,
    init (n0, n1) board = (Ok tt, old_rows ++ repeat (repeat Empty 4) 4)
    /\ is_grid R 4 old_rows
    /\ cell_at old_rows (n0 / 4, n0 mod 4) = Some (Num 2)
    /\ cell_at old_rows (n1 / 4, n1 mod 4) = Some (Num 2)
    /\ forall q, q <> (n0 / 4, n0 mod 4) -> q <> (n1 / 4, n1 mod 4) ->
                 cell_at old_rows q = cell_at board q.
Proof.
  intros Hg HR H0 H1. pose proof Hg as [Hlen _].
  assert (Hi0 : n0 / 4 < R)
    by (assert (n0 / 4 < 4) by (apply Nat.Div0.div_lt_upper_bound; lia); lia).
  assert (Hi1 : n1 / 4 < R)
    by (assert (n1 / 4 < 4) by (apply Nat.Div0.div_lt_upper_bound; lia); lia).
  assert (Hj0 : n0 mod 4 < 4) by (apply Nat.mod_upper_bound; lia).
  assert (Hj1 : n1 mod 4 < 4) by (apply Nat.mod_upper_bound; lia).
  set (b1 := replace_nth board (n0 / 4)
               (replace_nth (nth (n0 / 4) board []) (n0 mod 4) (Num 2))).
  assert (Hg1 : is_grid R 4 b1) by now apply replace_cell_is_grid.
  pose proof Hg1 as [Hlen1 _].
  set (b2 := replace_nth b1 (n1 / 4)
               (replace_nth (nth (n1 / 4) b1 []) (n1 mod 4) (Num 2))).
  assert (H2 : cell_at b2 (n1 / 4, n1 mod 4) = Some (Num 2)).
  { apply cell_at_replace_eq; [lia|]. now rewrite (is_grid_row Hg1 Hi1). }
  assert (H1' : cell_at b1 (n0 / 4, n0 mod 4) = Some (Num 2)).
  { apply cell_at_replace_eq; [lia|]. now rewrite (is_grid_row Hg Hi0). }
  exists b2. split; [|split; [|split; [|split]]].
  - unfold init. unfold bind at 1. rewrite init_rows_appended.
    cbn [fst snd]. unfold for_in. cbn [fold_in]. unfold bind.
    rewrite (set_cell_before_rows _ _ Hg Hi0 Hj0). fold b1.
    rewrite (set_cell_before_rows _ _ Hg1 Hi1 Hj1). reflexivity.
  - now apply replace_cell_is_grid.
  - destruct (Nat.eq_dec (n0 / 4) (n1 / 4)) as [Ei | Ei];
      [destruct (Nat.eq_dec (n0 mod 4) (n1 mod 4)) as [Ej | Ej]|].
    + rewrite Ei, Ej. exact H2.
    + unfold b2. rewrite cell_at_replace_ne; [assumption | lia | congruence].
    + unfold b2. rewrite cell_at_replace_ne; [assumption | lia | congruence].
  - exact H2.
  - intros q Hq0 Hq1. unfold b2.
    rewrite cell_at_replace_ne; [|lia | assumption].
    unfold b1. apply cell_at_replace_ne; [lia | assumption].
Qed.

Lemma init_again_appends_rows_witness :
  exists old_rows,
    init (3, 12) sample_board
    = (Ok tt, old_rows ++ repeat (repeat Empty 4) 4)
    /\ is_grid 4 4 old_rows
    /\ cell_at old_rows (3 / 4, 3 mod 4) = Some (Num 2)
    /\ cell_at old_rows (12 / 4, 12 mod 4) = Some (Num 2)
    /\ forall q, q <> (3 / 4, 3 mod 4) -> q <> (12 / 4, 12 mod 4) ->
                 cell_at old_rows q = cell_at sample_board q.
Proof.
  apply (@init_again_appends_rows 4 sample_board 3 12).
  - split; [reflexivity | repeat constructor].
  - lia.
  - lia.
  - lia.
Defined.

(** ** The text of [displayGame] *)

Lemma string_append_assoc (a b c : string) :
  ((a ++ b) ++ c = a ++ (b ++ c))%string.
Proof. induction a as [|x a IH]; simpl; [reflexivity | now rewrite IH]. Qed.

Lemma string_append_nil_r (a : string) : (a ++ "")%string = a.
Proof. induction a as [|x a IH]; simpl; [reflexivity | now rewrite IH]. Qed.

Lemma string_length_append (a b : string) :
  String.length (a ++ b) = String.length a + String.length b.
Proof. induction a as [|x a IH]; simpl; [reflexivity | now rewrite IH]. Qed.

Lemma spaces_length (n : nat) : String.length (spaces n) = n.
Proof. induction n as [|n IH]; simpl; [reflexivity | now rewrite IH]. Qed.

Lemma land_1_le (a : nat) : Nat.land a 1 <= 1.
Proof.
  assert (H : Nat.land a 1 = a mod 2) by exact (Nat.land_ones a 1).
  rewrite H. pose proof (Nat.mod_upper_bound a 2). lia.
Qed.

Lemma land_bit0_le (m w : nat) : Nat.land (Nat.land m w) 1 <= m mod 2.
Proof.
  assert (H : Nat.land (Nat.land m w) 1 = Nat.land m w mod 2)
    by exact (Nat.land_ones (Nat.land m w) 1).
  rewrite H, <- !Nat.bit0_mod, Nat.land_spec.
  destruct (Nat.testbit m 0), (Nat.testbit w 0); simpl; lia.
Qed.

Lemma center_left_margin (marg width : nat) :
  1 <= marg ->
  marg / 2 + Nat.land (Nat.land marg width) 1 <= marg.
Proof.
  intros Hm. pose proof (land_1_le (Nat.land marg width)) as Hbit.
  pose proof (Nat.div_mod_eq marg 2) as Hdiv.
  pose proof (Nat.mod_upper_bound marg 2) as Hmod.
  destruct (marg / 2) as [|h] eqn:E; lia.
Qed.

(** [center], as [displayGame] uses it, never cuts the text: the
    result is the text itself when it is [width] long or longer, and
    otherwise the text between spaces that fill it up to [width], the two
    sides differing by one space at most. *)
Theorem center_pads_to_width (s : string) (width : nat) :
  String.length (center s width) = Nat.max width (String.length s)
  /\ exists left right,
       center s width = (spaces left ++ s ++ spaces right)%string
       /\ left + right = width - String.length s
       /\ left <= right + 1 /\ right <= left + 1.
Proof.
  unfold center. destruct (width <=? String.length s) eqn:E.
  - apply Nat.leb_le in E. split; [lia|].
    exists 0, 0. cbn [spaces append]. rewrite string_append_nil_r.
    repeat split; lia.
  - apply Nat.leb_gt in E.
    set (marg := width - String.length s).
    set (left := marg / 2 + Nat.land (Nat.land marg width) 1).
    assert (Hleft : left <= marg) by (apply center_left_margin; lia).
    pose proof (land_bit0_le marg width) as Hbit.
    pose proof (Nat.div_mod_eq marg 2) as Hdiv.
    pose proof (Nat.mod_upper_bound marg 2) as Hmod.
    split.
    + rewrite !string_length_append, !spaces_length. lia.
    + exists left, (marg - left). repeat split; lia.
Qed.

Lemma center_length (s : string) (width : nat) :
  String.length (center s width) = Nat.max width (String.length s).
Proof.
  unfold center. destruct (width <=? String.length s) eqn:E.
  - apply Nat.leb_le in E. lia.
  - apply Nat.leb_gt in E.
    rewrite !string_length_append, !spaces_length.
    assert (H : (width - String.length s) / 2
                + Nat.land (Nat.land (width - String.length s) width) 1
                <= width - String.length s)
      by (apply center_left_margin; lia).
    lia.
Qed.

Lemma fold_in_raise {I S : Type} (indices : list I) (body : I -> S -> M S)
    (e : exn) (board : grid) :
  (forall i s, In i indices ->
     (exists s', body i s board = (Ok s', board))
     \/ body i s board = (Raise e, board)) ->
  (exists i, In i indices /\ forall s, body i s board = (Raise e, board)) ->
  forall s, fold_in indices body s board = (Raise e, board).
Proof.
  induction indices as [|i rest IH]; intros Hall (k & Hk & Hfail) s.
  - contradiction.
  - cbn [fold_in]. unfold bind.
    destruct (Hall i s (or_introl eq_refl)) as [[s' Hs] | Hs]; rewrite Hs;
      [|reflexivity].
    apply IH.
    + intros j s0 Hj. apply Hall. now right.
    + destruct Hk as [<- | Hk]; [rewrite Hfail in Hs; discriminate|].
      now exists k.
Qed.

Lemma string_append_nil_l (a : string) : ("" ++ a)%string = a.
Proof. reflexivity. Qed.

(** ** [str] and its limit *)

Lemma str_limit_large : (10 ^ 6 <= str_limit)%Z.
Proof. unfold str_limit. apply Z.pow_le_mono_r; lia. Qed.

Lemma str_printable (c : cell) :
  printable c = true -> str c = Ok (cell_text c).
Proof.
  destruct c as [|v]; [reflexivity|]. cbn [printable str cell_text].
  unfold str_int. now intros ->.
Qed.

Lemma str_not_printable (c : cell) :
  printable c = false -> str c = Raise ValueError.
Proof.
  destruct c as [|v]; [discriminate|]. cbn [printable str].
  unfold str_int. now intros ->.
Qed.

Lemma printable_bounded (c : cell) :
  (0 <= cell_value c)%Z -> (cell_value c < str_limit)%Z -> printable c = true.
Proof.
  destruct c as [|v]; [reflexivity|]. cbn [printable cell_value].
  intros H0 H1. apply Z.ltb_lt. lia.
Qed.

Lemma bind_ok {A B : Type} (m : M A) (k : A -> M B) (board board' : grid) (a : A) :
  m board = (Ok a, board') -> bind m k board = k a board'.
Proof. intros H. unfold bind. now rewrite H. Qed.

Lemma bind_raise {A B : Type} (m : M A) (k : A -> M B) (board board' : grid)
    (e : exn) :
  m board = (Raise e, board') -> bind m k board = (Raise e, board').
Proof. intros H. unfold bind. now rewrite H. Qed.

(** ** The text of [displayGame], continued *)

(** The cells [displayGame] reads. *)
Lemma display_cell_ok (board : grid) (row column : nat) (out : string) :
  row < length board -> column < length (nth row board []) ->
  printable (nth column (nth row board []) Empty) = true ->
  (cell <- get_cell row column ;;
   text <- lift (str cell) ;;
   ret (print_no_end ("|" ++ center text 5)%string out)) board
  = (Ok (print_no_end
           ("|" ++ center (cell_text (nth column (nth row board []) Empty)) 5)
           out), board).
Proof.
  intros Hrow Hcol Hp.
  erewrite bind_ok; [|now apply get_cell_ok].
  unfold bind, lift. now rewrite (str_printable _ Hp).
Qed.

Lemma display_cell_unprintable (board : grid) (row column : nat) (out : string) :
  row < length board -> column < length (nth row board []) ->
  printable (nth column (nth row board []) Empty) = false ->
  (cell <- get_cell row column ;;
   text <- lift (str cell) ;;
   ret (print_no_end ("|" ++ center text 5)%string out)) board
  = (Raise ValueError, board).
Proof.
  intros Hrow Hcol Hp.
  erewrite bind_ok; [|now apply get_cell_ok].
  unfold bind, lift. now rewrite (str_not_printable _ Hp).
Qed.

Lemma get_cell_missing (board : grid) (i j : nat) :
  length board <= i \/ length (nth i board []) <= j ->
  get_cell i j board = (Raise IndexError, board).
Proof.
  intros H. unfold get_cell, bind, get_row, index.
  destruct (nth_error board i) as [r|] eqn:Er; [|reflexivity].
  destruct H as [H | H]; [apply nth_error_None in H; congruence|].
  rewrite (nth_error_nth _ _ [] Er) in H.
  apply nth_error_None in H. now rewrite H.
Qed.

Lemma display_cell_missing (board : grid) (row column : nat) (out : string) :
  length board <= row \/ length (nth row board []) <= column ->
  (cell <- get_cell row column ;;
   text <- lift (str cell) ;;
   ret (print_no_end ("|" ++ center text 5)%string out)) board
  = (Raise IndexError, board).
Proof. intros H. apply bind_raise. now apply get_cell_missing. Qed.

(** [displayGame] on a board that has the sixteen cells it reads, each of
    them one that [str] converts. *)
Lemma displayGame_ok (board : grid) :
  4 <= length board ->
  (forall row, row < 4 -> 4 <= length (nth row board [])) ->
  (forall row column, row < 4 -> column < 4 ->
     printable (nth column (nth row board []) Empty) = true) ->
  displayGame board = (Ok (unlines (display_lines board)), board).
Proof.
  intros Hrows Hcols Hprint. unfold displayGame.
  rewrite (fold_in_pure _ _
    (fun row out =>
       print rule (print "|"
         (fold_left (fun out column =>
                       print_no_end
                         ("|" ++ center
                                   (cell_text (nth column (nth row board []) Empty))
                                   5)
                         out)
                    (range 4) out)))).
  - f_equal. f_equal. unfold unlines, display_lines, display_row, range.
    cbn [seq fold_left flat_map app]. unfold print, print_no_end.
    rewrite !string_append_assoc, !string_append_nil_l. reflexivity.
  - intros row out Hrow. apply in_seq in Hrow. unfold bind at 1.
    rewrite (fold_in_pure _ _
      (fun column out =>
         print_no_end
           ("|" ++ center (cell_text (nth column (nth row board []) Empty)) 5)
           out)).
    + reflexivity.
    + intros column out' Hcol. apply in_seq in Hcol.
      apply display_cell_ok; [lia | | apply Hprint; lia].
      specialize (Hcols row). lia.
Qed.

(** The first exception met decides: under the hypotheses every cell read
    is converted or raises [e], and one of them raises [e]. *)
Lemma displayGame_raise (board : grid) (e : exn) (row column : nat) :
  (forall r c out, r < 4 -> c < 4 ->
     (exists out',
        (cell <- get_cell r c ;;
         text <- lift (str cell) ;;
         ret (print_no_end ("|" ++ center text 5)%string out)) board
        = (Ok out', board))
     \/ (cell <- get_cell r c ;;
         text <- lift (str cell) ;;
         ret (print_no_end ("|" ++ center text 5)%string out)) board
        = (Raise e, board)) ->
  row < 4 -> column < 4 ->
  (forall out,
     (cell <- get_cell row column ;;
      text <- lift (str cell) ;;
      ret (print_no_end ("|" ++ center text 5)%string out)) board
     = (Raise e, board)) ->
  displayGame board = (Raise e, board).
Proof.
  intros Hcell Hrow Hcol Hfail. unfold displayGame.
  assert (Hinner : forall r out, r < 4 ->
    (exists out',
       fold_in (range 4) (fun column out =>
         cell <- get_cell r column ;;
         text <- lift (str cell) ;;
         ret (print_no_end ("|" ++ center text 5)%string out)) out board
       = (Ok out', board))
    \/ fold_in (range 4) (fun column out =>
         cell <- get_cell r column ;;
         text <- lift (str cell) ;;
         ret (print_no_end ("|" ++ center text 5)%string out)) out board
       = (Raise e, board)).
  { intros r out Hr. unfold range. cbn [seq fold_in].
    destruct (Hcell r 0 out Hr) as [[o0 H0] | H0]; [lia | |];
      [erewrite bind_ok; [|exact H0] | right; now apply bind_raise].
    destruct (Hcell r 1 o0 Hr) as [[o1 H1] | H1]; [lia | |];
      [erewrite bind_ok; [|exact H1] | right; now apply bind_raise].
    destruct (Hcell r 2 o1 Hr) as [[o2 H2] | H2]; [lia | |];
      [erewrite bind_ok; [|exact H2] | right; now apply bind_raise].
    destruct (Hcell r 3 o2 Hr) as [[o3 H3] | H3]; [lia | |];
      [erewrite bind_ok; [|exact H3] | right; now apply bind_raise].
    left. eexists. reflexivity. }
  apply fold_in_raise.
  - intros r out Hr. apply in_seq in Hr.
    destruct (Hinner r out) as [[out' H] | H]; [lia | |].
    + left. eexists. erewrite bind_ok; [reflexivity | exact H].
    + right. now apply bind_raise.
  - exists row. split; [apply in_seq; lia|].
    intros out. apply bind_raise. apply fold_in_raise.
    + intros c out0 Hc. apply in_seq in Hc. apply Hcell; lia.
    + exists column. split; [apply in_seq; lia|]. exact Hfail.
Qed.


(** [displayGame] on a board that has the sixteen cells it reads, one of
    them a number [str] refuses. *)
Lemma displayGame_unprintable (board : grid) :
  4 <= length board ->
  (forall row, row < 4 -> 4 <= length (nth row board [])) ->
  (exists row column, row < 4 /\ column < 4
     /\ printable (nth column (nth row board []) Empty) = false) ->
  displayGame board = (Raise ValueError, board).
Proof.
  intros Hrows Hcols (row & column & Hrow & Hcol & Hp).
  apply (@displayGame_raise board ValueError row column);
    [|assumption | assumption|].
  - intros r c out Hr Hc.
    assert (Hc' : c < length (nth r board []))
      by (specialize (Hcols r Hr); lia).
    destruct (printable (nth c (nth r board []) Empty)) eqn:E.
    + left. eexists. apply display_cell_ok; [lia | assumption | exact E].
    + right. apply display_cell_unprintable; [lia | assumption | exact E].
  - intros out. apply display_cell_unprintable; [lia | | exact Hp].
    specialize (Hcols row Hrow). lia.
Qed.

(** X18: [displayGame] reads the sixteen cells of the first four rows and
    columns and nothing else.  When the board has them and each is [""]
    or a number of at most 4300 digits, it returns, prints the nine lines
    of [display_lines] and leaves the board as it is, however many more
    rows or cells the board has.  When every cell of the board is such a
    cell but the board has fewer than four rows, or one of its first four
    rows is shorter than four cells, it raises [IndexError].  When the
    sixteen cells are there and one of them is a number [str] refuses, it
    raises [ValueError]. *)
Theorem displayGame_needs_sixteen_cells (board : grid) :
  (4 <= length board ->
   (forall row, row < 4 -> 4 <= length (nth row board [])) ->
   (forall row column, row < 4 -> column < 4 ->
      printable (nth column (nth row board []) Empty) = true) ->
   displayGame board = (Ok (unlines (display_lines board)), board))
  /\ ((forall r c, In r board -> In c r -> printable c = true) ->
      length board < 4
      \/ (exists row, row < 4 /\ length (nth row board []) < 4) ->
      displayGame board = (Raise IndexError, board))
  /\ (4 <= length board ->
      (forall row, row < 4 -> 4 <= length (nth row board [])) ->
      (exists row column, row < 4 /\ column < 4
         /\ printable (nth column (nth row board []) Empty) = false) ->
      displayGame board = (Raise ValueError, board)).
Proof.
  split; [apply displayGame_ok|]. split.
  - intros Hprint Hmiss.
    assert (Hcell : forall r c out, r < 4 -> c < 4 ->
      (exists out',
         (cell <- get_cell r c ;;
          text <- lift (str cell) ;;
          ret (print_no_end ("|" ++ center text 5)%string out)) board
         = (Ok out', board))
      \/ (cell <- get_cell r c ;;
          text <- lift (str cell) ;;
          ret (print_no_end ("|" ++ center text 5)%string out)) board
         = (Raise IndexError, board)).
    { intros r c out _ _.
      destruct (Nat.lt_ge_cases r (length board)) as [Hr | Hr];
        [destruct (Nat.lt_ge_cases c (length (nth r board []))) as [Hc | Hc]|].
      - left. eexists. apply display_cell_ok; try assumption.
        apply (Hprint (nth r board [])); now apply nth_In.
      - right. apply display_cell_missing. now right.
      - right. apply display_cell_missing. now left. }
    destruct Hmiss as [Hrows | (row & Hrow & Hshort)].
    + apply (@displayGame_raise board IndexError (length board) 0);
        [assumption | lia | lia|].
      intros out. apply display_cell_missing. now left.
    + apply (@displayGame_raise board IndexError row
               (length (nth row board [])));
        [assumption | assumption | lia|].
      intros out. apply display_cell_missing. now right.
  - apply displayGame_unprintable.
Qed.

Lemma displayGame_needs_sixteen_cells_witness :
  displayGame sample_board
  = (Ok (unlines (display_lines sample_board)), sample_board)
  /\ displayGame tall_board = (Raise IndexError, tall_board)
  /\ displayGame (replace_nth sample_board 0 [Num str_limit; Empty; Empty; Empty])
     = (Raise ValueError,
        replace_nth sample_board 0 [Num str_limit; Empty; Empty; Empty]).
Proof.
  split; [|split].
  - apply (@displayGame_needs_sixteen_cells sample_board).
    + simpl. lia.
    + intros [|[|[|[|row]]]] H; simpl; lia.
    + intros [|[|[|[|row]]]] [|[|[|[|column]]]] Hr Hc; try lia; reflexivity.
  - apply (@displayGame_needs_sixteen_cells tall_board).
    + intros r c Hr Hc. simpl in Hr.
      repeat (destruct Hr as [<- | Hr]; [simpl in Hc;
        repeat (destruct Hc as [<- | Hc]; [reflexivity|]); contradiction|]).
      contradiction.
    + left. simpl. lia.
  - apply (@displayGame_needs_sixteen_cells
             (replace_nth sample_board 0 [Num str_limit; Empty; Empty; Empty])).
    + simpl. lia.
    + intros [|[|[|[|row]]]] H; simpl; lia.
    + exists 0, 0. split; [lia|]. split; [lia|]. reflexivity.
Defined.

Lemma cell_text_tile_length (c : cell) :
  is_tile c = true -> (cell_value c <= 65536)%Z ->
  String.length (cell_text c) <= 5.
Proof.
  destruct c as [|v]; [simpl; lia|]. cbn [cell_value cell_text].
  rewrite is_tile_iff. intros (k & Hk & ->) Hle.
  assert (Hk16 : (k <= 16)%Z).
  { destruct (Z.le_gt_cases k 16) as [H | H]; [assumption|].
    assert (2 ^ 17 <= 2 ^ k)%Z by (apply Z.pow_le_mono_r; lia).
    change (2 ^ 17)%Z with 131072%Z in *. lia. }
  assert (Hcases : In k (map Z.of_nat (seq 1 16))).
  { apply in_map_iff. exists (Z.to_nat k). split; [lia|].
    apply in_seq. lia. }
  cbn [seq map In] in Hcases.
  repeat (destruct Hcases as [<- | Hcases]; [vm_compute; lia|]).
  contradiction.
Qed.

Lemma display_row_length (r : row) :
  (forall column, column < 4 ->
     String.length (cell_text (nth column r Empty)) <= 5) ->
  String.length (display_row r) = 25.
Proof.
  intros H. unfold display_row, range. cbn [seq fold_left].
  unfold print_no_end.
  rewrite !string_length_append, !center_length.
  pose proof (H 0). pose proof (H 1). pose proof (H 2). pose proof (H 3).
  cbn [String.length]. lia.
Qed.

Lemma tiles_up_to_nth (bound : Z) (g : grid) (i j : nat) :
  tiles_up_to bound g = true ->
  is_tile (nth j (nth i g []) Empty) = true
  /\ (cell_value (nth j (nth i g []) Empty) <= bound \/
      nth j (nth i g []) Empty = Empty)%Z.
Proof.
  intros H. unfold tiles_up_to in H.
  destruct (Nat.lt_ge_cases i (length g)) as [Hi | Hi];
    [destruct (Nat.lt_ge_cases j (length (nth i g []))) as [Hj | Hj]|].
  - rewrite forallb_forall in H. specialize (H _ (nth_In g [] Hi)).
    rewrite forallb_forall in H. specialize (H _ (nth_In _ Empty Hj)).
    apply andb_true_iff in H as [Ht Hb]. apply Z.leb_le in Hb. auto.
  - rewrite (nth_overflow (nth i g [])) by assumption. auto.
  - rewrite (nth_overflow g) by assumption. destruct j; simpl; auto.
Qed.

Lemma is_tile_nonneg (c : cell) : is_tile c = true -> (0 <= cell_value c)%Z.
Proof.
  destruct c as [|v]; [simpl; lia|]. cbn [is_tile cell_value].
  rewrite andb_true_iff, Z.leb_le. lia.
Qed.

(** X19: the frame of [displayGame] holds the numbers of the game up to
    65536: on a 4 x 4 board whose cells are Empty or powers of two from 2
    to 65536, the text printed is nine lines of exactly 25 characters
    each. *)
Theorem display_is_aligned_up_to_65536 (g : grid) :
  is_grid 4 4 g -> tiles_up_to 65536 g = true ->
  displayGame g = (Ok (unlines (display_lines g)), g)
  /\ length (display_lines g) = 9
  /\ Forall (fun line => String.length line = 25) (display_lines g).
Proof.
  intros Hg Ht. pose proof Hg as [Hlen Hrows]. split; [|split].
  - apply displayGame_ok; [lia | |].
    + intros row Hrow. rewrite (is_grid_row Hg Hrow). lia.
    + intros row column _ _.
      destruct (@tiles_up_to_nth 65536%Z g row column Ht) as [Htile [Hb | Hb]].
      * apply printable_bounded; [now apply is_tile_nonneg|].
        pose proof str_limit_large. lia.
      * now rewrite Hb.
  - reflexivity.
  - assert (Hrow : forall row, String.length (display_row (nth row g [])) = 25).
    { intros row. apply display_row_length. intros column _.
      destruct (@tiles_up_to_nth 65536%Z g row column Ht) as [Htile [Hb | Hb]].
      - now apply cell_text_tile_length.
      - rewrite Hb. simpl. lia. }
    unfold display_lines, range. cbn [seq flat_map app].
    repeat constructor; apply Hrow.
Qed.

Lemma display_is_aligned_up_to_65536_witness :
  displayGame sample_board
  = (Ok (unlines (display_lines sample_board)), sample_board)
  /\ length (display_lines sample_board) = 9
  /\ Forall (fun line => String.length line = 25) (display_lines sample_board).
Proof.
  apply (@display_is_aligned_up_to_65536 sample_board).
  - split; [reflexivity | repeat constructor].
  - reflexivity.
Defined.

(** ** [promptGamerForTheNextMove] *)

Lemma is_valid_input_iff (move : string) :
  is_valid_input move = true
  <-> move = "W"%string \/ move = "A"%string \/ move = "S"%string
      \/ move = "D"%string \/ move = "Q"%string.
Proof.
  unfold is_valid_input. cbn [existsb].
  rewrite !orb_true_iff, !String.eqb_eq. intuition discriminate.
Qed.

Lemma prompt_rest_shorter (upper : string -> string) (lines rest : list string)
    (move : string) :
  promptGamerForTheNextMove upper lines = Some (move, rest) ->
  is_valid_input move = true /\ length rest < length lines.
Proof.
  induction lines as [|line lines IH]; [discriminate|].
  cbn [promptGamerForTheNextMove].
  destruct (is_valid_input (upper line)) eqn:E.
  - intros [= <- <-]. split; [assumption | simpl; lia].
  - intros H. destruct (IH H) as [Hv Hlen]. split; [assumption | simpl; lia].
Qed.

(** X20: whatever [str.upper] does, [promptGamerForTheNextMove] returns
    the upper-case form of the first line typed whose upper-case form is
    one of W, A, S, D, Q: every line before it is refused, the lines after
    it are left unread, and nothing but these five strings is ever
    returned; while no such line is typed it keeps prompting. *)
Theorem prompt_returns_first_valid_entry (upper : string -> string)
    (lines : list string) :
  match promptGamerForTheNextMove upper lines with
  | Some (move, rest) =>
      (move = "W"%string \/ move = "A"%string \/ move = "S"%string
       \/ move = "D"%string \/ move = "Q"%string)
      /\ exists refused line,
           lines = refused ++ line :: rest
           /\ move = upper line
           /\ Forall (fun l => is_valid_input (upper l) = false) refused
  | None => Forall (fun l => is_valid_input (upper l) = false) lines
  end.
Proof.
  induction lines as [|line lines IH]; [constructor|].
  cbn [promptGamerForTheNextMove].
  destruct (is_valid_input (upper line)) eqn:E.
  - split; [now apply is_valid_input_iff|].
    exists [], line. repeat split. constructor.
  - destruct (promptGamerForTheNextMove upper lines) as [[move rest]|].
    + destruct IH as (Hmove & refused & l & -> & -> & Href).
      split; [assumption|].
      exists (line :: refused), l. repeat split. now constructor.
    + now constructor.
Qed.

(** ** Tiles, the score and [str] *)

Lemma row_score_bounds (r : row) :
  forallb is_tile r = true ->
  (0 <= row_sum cell_value r)%Z
  /\ forall j, (0 <= cell_value (nth j r Empty) <= row_sum cell_value r)%Z.
Proof.
  induction r as [|c r IH]; intros H.
  - split; [reflexivity|]. intros [|j]; cbn; lia.
  - cbn [forallb] in H. apply andb_true_iff in H as [Hc Hr].
    destruct (IH Hr) as [H0 Hj]. pose proof (is_tile_nonneg _ Hc).
    rewrite row_sum_cons. split; [lia|].
    intros [|j]; cbn [nth]; [lia|]. specialize (Hj j). lia.
Qed.

Lemma grid_score_bounds (g : grid) :
  all_tiles g = true ->
  (0 <= grid_score g)%Z
  /\ forall i j,
       (0 <= cell_value (nth j (nth i g []) Empty) <= grid_score g)%Z.
Proof.
  unfold all_tiles, grid_score. induction g as [|r g IH]; intros H.
  - split; [reflexivity|]. intros [|i] [|j]; cbn; lia.
  - cbn [forallb] in H. apply andb_true_iff in H as [Hr Hg].
    destruct (IH Hg) as [H0 Hij]. destruct (row_score_bounds _ Hr) as [Hr0 Hrj].
    rewrite grid_sum_cons. split; [lia|].
    intros [|i] j; cbn [nth].
    + specialize (Hrj j). lia.
    + specialize (Hij i j). lia.
Qed.

(** On a board of the game whose score [str] converts, it converts every
    cell. *)
Lemma tiles_printable (g : grid) :
  all_tiles g = true -> (grid_score g < str_limit)%Z ->
  all_printable g = true /\ printable_int (grid_score g) = true.
Proof.
  intros Ht Hs. destruct (grid_score_bounds g Ht) as [H0 Hcells]. split.
  - unfold all_printable. apply forallb_forall. intros r Hr.
    apply forallb_forall. intros c Hc.
    destruct (In_nth _ _ [] Hr) as (i & Hi & <-).
    destruct (In_nth _ _ Empty Hc) as (j & Hj & <-).
    specialize (Hcells i j). apply printable_bounded; lia.
  - unfold printable_int. apply Z.ltb_lt. lia.
Qed.

Lemma all_printable_nth (g : grid) (i j : nat) :
  all_printable g = true -> printable (nth j (nth i g []) Empty) = true.
Proof.
  intros H. apply forallb_nth; [|reflexivity].
  apply (forallb_nth (forallb printable)); [exact H | reflexivity].
Qed.

Lemma forallb_false_nth {A : Type} (P : A -> bool) (l : list A) (d : A) :
  forallb P l = false -> exists i, i < length l /\ P (nth i l d) = false.
Proof.
  induction l as [|a l IH]; cbn [forallb]; [discriminate|].
  destruct (P a) eqn:E; cbn [andb].
  - intros H. destruct (IH H) as (i & Hi & HP).
    exists (S i). split; [simpl; lia | exact HP].
  - intros _. exists 0. split; [simpl; lia | exact E].
Qed.

(** [displayGame] on a 4 x 4 board: the text, or the [ValueError] of
    [str]. *)
Lemma displayGame_grid (g : grid) :
  is_grid 4 4 g ->
  displayGame g
  = (if all_printable g then Ok (unlines (display_lines g))
     else Raise ValueError, g).
Proof.
  intros Hg. pose proof Hg as [Hlen _].
  assert (Hcols : forall row, row < 4 -> 4 <= length (nth row g []))
    by (intros row Hrow; rewrite (is_grid_row Hg Hrow); lia).
  destruct (all_printable g) eqn:E.
  - apply displayGame_ok; [lia | assumption|].
    intros row column _ _. now apply all_printable_nth.
  - apply displayGame_unprintable; [lia | assumption|].
    apply (forallb_false_nth _ _ []) in E as (i & Hi & E).
    apply (forallb_false_nth _ _ Empty) in E as (j & Hj & E).
    exists i, j. split; [lia|]. split; [|exact E].
    rewrite (is_grid_row Hg) in Hj; lia.
Qed.

(** ** A turn of the game *)

Lemma empty_positions_nil_iff (R C : nat) (g : grid) :
  is_grid R C g ->
  empty_positions R C g = [] <-> occupied_count g = R * C.
Proof.
  intros Hg. rewrite (occupied_count_full Hg), (all_occupied_nth Hg). split.
  - intros H i j Hi Hj.
    destruct (nth j (nth i g []) Empty) eqn:E; [|reflexivity].
    assert (Hin : In (i, j) (empty_positions R C g))
      by now apply In_empty_positions.
    rewrite H in Hin. contradiction.
  - intros H. destruct (empty_positions R C g) as [|[i j] rest] eqn:E;
      [reflexivity|].
    assert (Hin : In (i, j) (empty_positions R C g)) by (rewrite E; now left).
    apply In_empty_positions in Hin as (Hi & Hj & Hcell).
    specialize (H i j Hi Hj). rewrite Hcell in H. discriminate.
Qed.

(** Both cases of [addANewTwoToBoard] on a grid. *)
Lemma spawn_cases (R C : nat) (g : grid) (rnd : nat) :
  is_grid R C g -> 1 <= R ->
  exists g2,
    addANewTwoToBoard rnd g = (Ok tt, g2)
    /\ is_grid R C g2
    /\ (all_tiles g = true -> all_tiles g2 = true)
    /\ ((occupied_count g = R * C /\ g2 = g)
        \/ (occupied_count g < R * C
            /\ occupied_count g2 = occupied_count g + 1
            /\ grid_score g2 = (grid_score g + 2)%Z)).
Proof.
  intros Hg HR. pose proof Hg as [Hlen _].
  destruct (addANewTwoToBoard_grid rnd Hg HR) as [Hfull Hroom].
  destruct (empty_positions R C g) as [|p rest] eqn:E.
  - exists g. split; [now apply Hfull|]. split; [assumption|].
    split; [auto|]. left. split; [|reflexivity].
    now apply (empty_positions_nil_iff Hg).
  - destruct Hroom as (i & j & Hi & Hj & Hcell & Hadd); [discriminate|].
    exists (replace_nth g i (replace_nth (nth i g []) j (Num 2))).
    assert (Hrow : nth_error g i = Some (nth i g []))
      by (apply nth_error_nth'; lia).
    assert (Hcell' : cell_at g (i, j) = Some Empty)
      by now rewrite (cell_at_nth Hg Hi Hj), Hcell.
    assert (Hcount : occupied_count
                       (replace_nth g i (replace_nth (nth i g []) j (Num 2)))
                     = occupied_count g + 1).
    { pose proof (occupied_count_replace g i
                    (replace_nth (nth i g []) j (Num 2)) Hrow) as Hc.
      rewrite row_occupied_replace in Hc; [lia|].
      unfold cell_at in Hcell'. cbn [fst snd] in Hcell'.
      now rewrite Hrow in Hcell'. }
    assert (Hg2 : is_grid R C
                    (replace_nth g i (replace_nth (nth i g []) j (Num 2))))
      by now apply replace_cell_is_grid.
    split; [assumption|]. split; [assumption|].
    split; [apply spawned_board_tiles|]. right.
    pose proof (occupied_count_le Hg2) as Hle.
    split; [lia|]. split; [assumption|].
    now apply (@spawned_board_score R C g i j).
Qed.

(** A turn on a 4 x 4 board: the board it leaves, and how it ends. *)
Lemma game_turn_cases (move : string) (rnd : nat) (g : grid) :
  is_grid 4 4 g -> is_direction move ->
  exists g2,
    updateTheBoardBasedOnTheUserMove move g = (Ok tt, moved move g)
    /\ addANewTwoToBoard rnd (moved move g) = (Ok tt, g2)
    /\ game_turn move rnd g
       = (if all_printable g2 then Ok (occupied_count g2 =? 16)
          else Raise ValueError, g2)
    /\ is_grid 4 4 g2
    /\ (all_tiles g = true -> all_tiles g2 = true)
    /\ ((occupied_count (moved move g) = 16 /\ g2 = moved move g)
        \/ (occupied_count (moved move g) < 16
            /\ occupied_count g2 = occupied_count (moved move g) + 1
            /\ grid_score g2 = (grid_score g + 2)%Z))
    /\ (grid_score g <= grid_score g2 <= grid_score g + 2)%Z.
Proof.
  intros Hg Hmove.
  assert (Hn : 1 <= 4) by lia.
  pose proof (update_square Hg Hn Hmove) as Hup.
  pose proof (moved_is_grid move Hg) as Hg1.
  destruct (spawn_cases rnd Hg1 Hn)
    as (g2 & Hadd & Hg2 & Htiles & Hcases).
  pose proof (displayGame_grid Hg2) as Hdisp.
  destruct (isFull_grid Hg2 Hn) as (full & Hfull & Hiff).
  assert (Hb : full = (occupied_count g2 =? 16)).
  { apply eq_true_iff_eq.
    rewrite Hiff, <- (all_occupied_nth Hg2), <- (occupied_count_full Hg2).
    now rewrite Nat.eqb_eq. }
  exists g2.
  split; [assumption|]. split; [assumption|]. split.
  - unfold game_turn.
    erewrite bind_ok; [|exact Hup].
    erewrite bind_ok; [|exact Hadd].
    destruct (all_printable g2).
    + erewrite bind_ok; [|exact Hdisp]. now rewrite <- Hb.
    + now apply bind_raise.
  - split; [assumption|]. split.
    + intros Ht. apply Htiles. now apply (moved_tiles move Hg).
    + rewrite <- (moved_score move Hg). split; [exact Hcases|].
      destruct Hcases as [[_ ->] | (_ & _ & ->)]; lia.
Qed.

(** X21: one turn of the game on a 4 x 4 board, for each of the moves A,
    D, W, S and every random choice.  The move and the new tile return
    and the board stays 4 x 4: if the move leaves an Empty cell, the turn
    adds one tile to what the move left and exactly 2 to the score of the
    board before the turn; if it leaves none, the turn adds nothing.
    Then, when [str] converts every cell of the new board, the display
    and [isFull] return, and [isFull] answers [True], which ends the
    game, exactly when the sixteen cells are Occupied; when some cell has
    more than 4300 digits the display raises [ValueError] and the new
    board stays.  On a board of powers of two whose score plus 2 has at
    most 4300 digits, every cell is converted. *)
Theorem game_turn_adds_two_to_score (move : string) (rnd : nat) (g : grid) :
  is_grid 4 4 g -> is_direction move ->
  exists g1 g2,
    updateTheBoardBasedOnTheUserMove move g = (Ok tt, g1)
    /\ addANewTwoToBoard rnd g1 = (Ok tt, g2)
    /\ is_grid 4 4 g2
    /\ ((occupied_count g1 = 16 /\ g2 = g1)
        \/ (occupied_count g1 < 16
            /\ occupied_count g2 = occupied_count g1 + 1
            /\ grid_score g2 = (grid_score g + 2)%Z))
    /\ game_turn move rnd g
       = (if all_printable g2 then Ok (occupied_count g2 =? 16)
          else Raise ValueError, g2)
    /\ (all_tiles g = true -> (grid_score g + 2 < str_limit)%Z ->
        all_printable g2 = true).
Proof.
  intros Hg Hmove.
  destruct (game_turn_cases rnd Hg Hmove)
    as (g2 & Hup & Hadd & Hturn & Hg2 & Ht2 & Hcases & Hscore).
  exists (moved move g), g2. repeat (split; [assumption|]).
  intros Ht Hs. apply tiles_printable; [auto | lia].
Qed.

Lemma game_turn_adds_two_to_score_witness :
  exists g1 g2,
    updateTheBoardBasedOnTheUserMove "A" sample_board = (Ok tt, g1)
    /\ addANewTwoToBoard 1 g1 = (Ok tt, g2)
    /\ is_grid 4 4 g2
    /\ ((occupied_count g1 = 16 /\ g2 = g1)
        \/ (occupied_count g1 < 16
            /\ occupied_count g2 = occupied_count g1 + 1
            /\ grid_score g2 = (grid_score sample_board + 2)%Z))
    /\ game_turn "A" 1 sample_board
       = (if all_printable g2 then Ok (occupied_count g2 =? 16)
          else Raise ValueError, g2)
    /\ (all_tiles sample_board = true ->
        (grid_score sample_board + 2 < str_limit)%Z ->
        all_printable g2 = true).
Proof.
  apply (@game_turn_adds_two_to_score "A" 1 sample_board).
  - split; [reflexivity | repeat constructor].
  - left; reflexivity.
Defined.

(** ** The whole game *)

Lemma replace_cell_score_le (R C : nat) (board : grid) (i j : nat) :
  is_grid R C board -> all_tiles board = true -> i < R -> j < C ->
  (grid_score (replace_nth board i (replace_nth (nth i board []) j (Num 2)))
   <= grid_score board + 2)%Z.
Proof.
  intros Hg Ht Hi Hj. pose proof Hg as [Hlen _].
  assert (Hrow : nth_error board i = Some (nth i board []))
    by (apply nth_error_nth'; lia).
  assert (Hcell : nth_error (nth i board []) j
                  = Some (nth j (nth i board []) Empty))
    by (apply nth_error_nth'; rewrite (is_grid_row Hg Hi); lia).
  pose proof (grid_sum_replace cell_value board i
                (replace_nth (nth i board []) j (Num 2)) Hrow) as Hg'.
  pose proof (row_sum_replace cell_value (nth i board []) j (Num 2) Hcell)
    as Hr.
  destruct (grid_score_bounds board Ht) as [_ Hb]. specialize (Hb i j).
  unfold grid_score. cbn [cell_value] in Hr. lia.
Qed.

Lemma init_fresh_board (n0 n1 : nat) :
  n0 < 16 -> n1 < 16 ->
  exists g,
    init (n0, n1) initial_board = (Ok tt, g)
    /\ is_grid 4 4 g /\ all_tiles g = true /\ (grid_score g <= 4)%Z.
Proof.
  intros H0 H1.
  assert (Hi0 : n0 / 4 < 4) by (apply Nat.Div0.div_lt_upper_bound; lia).
  assert (Hi1 : n1 / 4 < 4) by (apply Nat.Div0.div_lt_upper_bound; lia).
  assert (Hj0 : n0 mod 4 < 4) by (apply Nat.mod_upper_bound; lia).
  assert (Hj1 : n1 mod 4 < 4) by (apply Nat.mod_upper_bound; lia).
  set (e4 := repeat (repeat Empty 4) 4).
  assert (He4 : is_grid 4 4 e4) by (split; [reflexivity | repeat constructor]).
  assert (Hte4 : all_tiles e4 = true) by reflexivity.
  assert (Hse4 : grid_score e4 = 0%Z) by reflexivity.
  set (b1 := replace_nth e4 (n0 / 4)
               (replace_nth (nth (n0 / 4) e4 []) (n0 mod 4) (Num 2))).
  assert (Hb1 : is_grid 4 4 b1) by now apply replace_cell_is_grid.
  assert (Htb1 : all_tiles b1 = true) by now apply spawned_board_tiles.
  assert (Hsb1 : (grid_score b1 <= grid_score e4 + 2)%Z)
    by now apply (@replace_cell_score_le 4 4).
  exists (replace_nth b1 (n1 / 4)
            (replace_nth (nth (n1 / 4) b1 []) (n1 mod 4) (Num 2))).
  split; [|split; [|split]].
  - unfold init. erewrite bind_ok; [|apply init_rows_appended].
    cbn [fst snd app initial_board]. fold e4.
    unfold for_in. cbn [fold_in].
    erewrite bind_ok; [|apply (set_cell_grid _ He4 Hi0 Hj0)]. fold b1.
    erewrite bind_ok; [|apply (set_cell_grid _ Hb1 Hi1 Hj1)]. reflexivity.
  - now apply replace_cell_is_grid.
  - now apply spawned_board_tiles.
  - pose proof (@replace_cell_score_le 4 4 b1 (n1 / 4) (n1 mod 4)
                  Hb1 Htb1 Hi1 Hj1). lia.
Qed.

Lemma valid_input_not_Q_is_direction (move : string) :
  is_valid_input move = true -> String.eqb move "Q" = false ->
  is_direction move.
Proof.
  intros Hv HQ. apply is_valid_input_iff in Hv. apply String.eqb_neq in HQ.
  unfold is_direction. intuition.
Qed.

(** The super-loop at the end of the input. *)
Lemma super_loop_no_entry (upper : string -> string) (rnd : nat -> nat)
    (fuel turn : nat) (lines : list string) (g : grid) :
  is_grid 4 4 g -> printable_int (grid_score g) = true ->
  promptGamerForTheNextMove upper lines = None ->
  super_loop upper (S fuel) rnd turn lines g = (Raise EOFError, g).
Proof.
  intros Hg Hp Hnone. cbn [super_loop].
  erewrite bind_ok; [|apply (getCurrentScore_grid Hg); lia].
  erewrite bind_ok; [|unfold lift, str_int; rewrite Hp; reflexivity].
  now rewrite Hnone.
Qed.

(** The super-loop from a 4 x 4 board, with fuel for all the lines. *)
Lemma super_loop_outcomes (upper : string -> string) (rnd : nat -> nat)
    (fuel : nat) :
  forall (turn : nat) (lines : list string) (g : grid),
    length lines < fuel -> is_grid 4 4 g ->
    exists r g',
      super_loop upper fuel rnd turn lines g = (r, g')
      /\ (r = Ok Quit \/ r = Ok GameOver
          \/ r = Raise EOFError \/ r = Raise ValueError)
      /\ is_grid 4 4 g'
      /\ (all_tiles g = true -> all_tiles g' = true)
      /\ (r = Ok GameOver -> occupied_count g' = 16)
      /\ (grid_score g <= grid_score g'
          <= grid_score g + 2 * Z.of_nat (length lines))%Z
      /\ (all_tiles g = true ->
          (grid_score g + 2 * Z.of_nat (length lines) < str_limit)%Z ->
          r <> Raise ValueError).
Proof.
  induction fuel as [|fuel IH]; intros turn lines g Hfuel Hg; [lia|].
  cbn [super_loop].
  erewrite bind_ok; [|apply (getCurrentScore_grid Hg); lia].
  destruct (printable_int (grid_score g)) eqn:Ep.
  2:{ exists (Raise ValueError), g.
      split; [apply bind_raise; unfold lift, str_int; now rewrite Ep|].
      split; [auto|]. split; [assumption|]. split; [auto|].
      split; [discriminate|]. split; [lia|].
      intros Ht Hs. destruct (@tiles_printable g Ht) as [_ Hp]; [lia|].
      congruence. }
  erewrite bind_ok; [|unfold lift, str_int; rewrite Ep; reflexivity].
  destruct (promptGamerForTheNextMove upper lines) as [[move rest]|] eqn:Eprompt.
  - destruct (prompt_rest_shorter _ _ Eprompt) as [Hvalid Hshort].
    destruct (String.eqb move "Q") eqn:EQ.
    + exists (Ok Quit), g.
      split; [reflexivity|]. split; [auto|]. split; [assumption|].
      split; [auto|]. split; [discriminate|]. split; [lia | discriminate].
    + pose proof (valid_input_not_Q_is_direction _ Hvalid EQ) as Hmove.
      destruct (game_turn_cases (rnd turn) Hg Hmove)
        as (g2 & _ & _ & Hturn & Hg2 & Ht2 & _ & Hscore).
      destruct (all_printable g2) eqn:Ea.
      * erewrite bind_ok; [|exact Hturn].
        destruct (occupied_count g2 =? 16) eqn:Efull.
        -- exists (Ok GameOver), g2.
           split; [reflexivity|]. split; [auto|]. split; [assumption|].
           split; [assumption|].
           split; [intros _; now apply Nat.eqb_eq|].
           split; [lia | discriminate].
        -- destruct (IH (S turn) rest g2)
             as (r & g' & Hrun & Hr & Hg' & Ht' & Hover & Hsc & Hno);
             [lia | assumption|].
           exists r, g'.
           split; [assumption|]. split; [assumption|]. split; [assumption|].
           split; [auto|]. split; [assumption|]. split; [lia|].
           intros Ht Hs. apply Hno; [auto | lia].
      * exists (Raise ValueError), g2.
        split; [now apply bind_raise|]. split; [auto|]. split; [assumption|].
        split; [assumption|]. split; [discriminate|]. split; [lia|].
        intros Ht Hs. destruct (@tiles_printable g2) as [Hp _];
          [auto | lia | congruence].
  - exists (Raise EOFError), g.
    split; [reflexivity|]. split; [auto|]. split; [assumption|].
    split; [auto|]. split; [discriminate|]. split; [lia | discriminate].
Qed.

(** X22: the program raises only where the console does.  For every draw
    of [random.sample], every sequence of outcomes of [random.choice],
    every sequence of lines typed and whatever [str.upper] does, the
    program run from the empty [board] ends in one of four ways: by Q, by
    a full board, with the [EOFError] of [input] when the lines run out
    before that, or with the [ValueError] of [str]; it never ends with an
    [IndexError] nor with the [RuntimeError] of
    [updateTheBoardBasedOnTheUserMove].  The [ValueError] needs a score of
    more than 4300 digits, so more than [(10 ^ 4300 - 4) / 2] lines; when
    no line typed is a valid entry the end is the [EOFError].  Whatever
    the end, [board] is then a 4 x 4 grid whose cells are Empty or powers
    of two, all sixteen Occupied when the game is over. *)
Theorem main_raises_only_at_the_console (upper : string -> string)
    (n0 n1 : nat) (rnd : nat -> nat) (lines : list string) :
  n0 < 16 -> n1 < 16 ->
  exists r g,
    main upper (n0, n1) rnd lines initial_board = (r, g)
    /\ (r = Ok Quit \/ r = Ok GameOver
        \/ r = Raise EOFError \/ r = Raise ValueError)
    /\ ((4 + 2 * Z.of_nat (length lines) < str_limit)%Z ->
        r <> Raise ValueError)
    /\ (promptGamerForTheNextMove upper lines = None -> r = Raise EOFError)
    /\ is_grid 4 4 g
    /\ all_tiles g = true
    /\ (r = Ok GameOver -> occupied_count g = 16).
Proof.
  intros H0 H1.
  destruct (init_fresh_board H0 H1) as (g0 & Hinit & Hg0 & Ht0 & Hs0).
  pose proof str_limit_large as Hlimit.
  destruct (@tiles_printable g0 Ht0) as [Hp0 Hps0]; [lia|].
  pose proof (displayGame_grid Hg0) as Hdisp. rewrite Hp0 in Hdisp.
  destruct (super_loop_outcomes upper rnd (fuel := S (length lines)) 0 lines
              (Nat.lt_succ_diag_r _) Hg0)
    as (r & g & Hrun & Hr & Hg & Ht & Hover & _ & Hno).
  exists r, g. split.
  - unfold main.
    erewrite bind_ok; [|exact Hinit].
    erewrite bind_ok; [|exact Hdisp]. exact Hrun.
  - split; [assumption|]. split; [|split].
    + intros Hs. apply Hno; [assumption | lia].
    + intros Hnone.
      rewrite (@super_loop_no_entry upper rnd (length lines) 0 lines g0
                 Hg0 Hps0 Hnone) in Hrun.
      now injection Hrun as <- _.
    + split; [assumption|]. split; [auto | assumption].
Qed.

Lemma main_raises_only_at_the_console_witness :
  exists r g,
    main (fun s => s) (3, 12) (fun turn => turn)
         ["x"; "A"; "W"]%string initial_board = (r, g)
    /\ (r = Ok Quit \/ r = Ok GameOver
        \/ r = Raise EOFError \/ r = Raise ValueError)
    /\ ((4 + 2 * Z.of_nat (length ["x"; "A"; "W"]%string) < str_limit)%Z ->
        r <> Raise ValueError)
    /\ (promptGamerForTheNextMove (fun s => s) ["x"; "A"; "W"]%string = None ->
        r = Raise EOFError)
    /\ is_grid 4 4 g
    /\ all_tiles g = true
    /\ (r = Ok GameOver -> occupied_count g = 16).
Proof.
  apply (@main_raises_only_at_the_console (fun s => s) 3 12 (fun turn => turn)
           ["x"; "A"; "W"]%string); lia.
Defined.

(** X23: the score never goes down while the game runs.  From any 4 x 4
    board, whatever is typed and whatever the random choices, the
    super-loop ends by Q, by a full board, with the [EOFError] of [input]
    or with the [ValueError] of [str], and whichever it is, the score of
    the board it leaves is at least the score it started with, and at
    most two more for each line typed. *)
Theorem score_never_decreases (upper : string -> string) (rnd : nat -> nat)
    (turn : nat) (lines : list string) (g : grid) :
  is_grid 4 4 g ->
  exists r g' s s',
    super_loop upper (S (length lines)) rnd turn lines g = (r, g')
    /\ (r = Ok Quit \/ r = Ok GameOver
        \/ r = Raise EOFError \/ r = Raise ValueError)
    /\ getCurrentScore g = (Ok s, g)
    /\ getCurrentScore g' = (Ok s', g')
    /\ (s <= s' <= s + 2 * Z.of_nat (length lines))%Z.
Proof.
  intros Hg.
  destruct (super_loop_outcomes upper rnd (fuel := S (length lines)) turn lines
              (Nat.lt_succ_diag_r _) Hg)
    as (r & g' & Hrun & Hr & Hg' & _ & _ & Hscore & _).
  exists r, g', (grid_score g), (grid_score g').
  split; [assumption|]. split; [assumption|].
  split; [apply (getCurrentScore_grid Hg); lia|].
  split; [apply (getCurrentScore_grid Hg'); lia | assumption].
Qed.

Lemma score_never_decreases_witness :
  exists r g' s s',
    super_loop (fun s => s) (S (length ["A"; "S"]%string)) (fun turn => turn)
               0 ["A"; "S"]%string sample_board = (r, g')
    /\ (r = Ok Quit \/ r = Ok GameOver
        \/ r = Raise EOFError \/ r = Raise ValueError)
    /\ getCurrentScore sample_board = (Ok s, sample_board)
    /\ getCurrentScore g' = (Ok s', g')
    /\ (s <= s' <= s + 2 * Z.of_nat (length ["A"; "S"]%string))%Z.
Proof.
  apply (@score_never_decreases (fun s => s) (fun turn => turn) 0
           ["A"; "S"]%string sample_board).
  split; [reflexivity | repeat constructor].
Defined.

(** ** [slideLeftAndMergeRow], cell by cell *)

Lemma repeat_Empty_snoc (k : nat) :
  repeat Empty (S k) = repeat Empty k ++ [Empty].
Proof. induction k as [|k IH]; [reflexivity|]. simpl in *. now rewrite <- IH. Qed.

(** X24: how a slide treats the front of a row.  Empty cells inside the
    row do not matter, only the Occupied cells and the length do; two
    equal numbers at the front merge into their double, which is not
    merged again: the rest of the row is slid on its own; two different
    numbers at the front leave the first in place and the slide goes on
    from the second. *)
Theorem slide_front_of_row (x y : Z) (r rest : row) :
  slideLeftAndMergeRow r
  = slideLeftAndMergeRow
      (filter is_occupied r ++ repeat Empty (length r - row_occupied r))
  /\ slideLeftAndMergeRow (Num x :: Num x :: rest)
     = Num (x * 2) :: slideLeftAndMergeRow rest ++ [Empty]
  /\ (x <> y ->
      slideLeftAndMergeRow (Num x :: Num y :: rest)
      = Num x :: slideLeftAndMergeRow (Num y :: rest)).
Proof.
  split; [|split].
  - unfold row_occupied.
    rewrite (slide_closed_form
               (filter is_occupied r
                ++ repeat Empty (length r - length (filter is_occupied r)))).
    rewrite filter_occupied_app_Empty.
    rewrite (filter_occupied_id (filter_occupied_all r)).
    rewrite length_app, repeat_length.
    pose proof (filter_length_le r) as Hle.
    replace (length (filter is_occupied r)
             + (length r - length (filter is_occupied r)))
      with (length r) by lia.
    apply slide_closed_form.
  - rewrite !slide_closed_form.
    cbn [filter is_occupied is_empty negb].
    rewrite merge_pairs_eq by (cbn; apply Z.eqb_refl).
    cbn [cell_double length app].
    pose proof (merge_pairs_length (filter is_occupied rest)) as H1.
    pose proof (filter_length_le rest) as H2.
    replace (S (S (length rest))
             - S (length (merge_pairs (filter is_occupied rest))))
      with (S (length rest - length (merge_pairs (filter is_occupied rest))))
      by lia.
    rewrite repeat_Empty_snoc. now rewrite <- app_assoc.
  - intros Hxy. rewrite !slide_closed_form.
    cbn [filter is_occupied is_empty negb].
    rewrite merge_pairs_ne by (cbn; now apply Z.eqb_neq).
    cbn [length app]. reflexivity.
Qed.

Lemma slide_front_of_row_witness :
  slideLeftAndMergeRow [Num 2; Empty; Num 2; Num 2]
  = slideLeftAndMergeRow
      (filter is_occupied [Num 2; Empty; Num 2; Num 2]
       ++ repeat Empty (length [Num 2; Empty; Num 2; Num 2]
                        - row_occupied [Num 2; Empty; Num 2; Num 2]))
  /\ slideLeftAndMergeRow (Num 2 :: Num 2 :: [Num 4; Empty])
     = Num (2 * 2) :: slideLeftAndMergeRow [Num 4; Empty] ++ [Empty]
  /\ slideLeftAndMergeRow (Num 2 :: Num 4 :: [Num 4; Empty])
     = Num 2 :: slideLeftAndMergeRow (Num 4 :: [Num 4; Empty]).
Proof.
  destruct (@slide_front_of_row 2 4 [Num 2; Empty; Num 2; Num 2]
              [Num 4; Empty]) as (H1 & H2 & H3).
  split; [exact H1|]. split; [exact H2|]. apply H3. discriminate.
Defined.
